(** * Metadata resolution of the credential-verification front end

    A shallow embedding of the IPFS metadata resolution code of the
    verification page ([VerifyByUuidPage]: [getAttr], [fetchIpfs],
    [formatDate], [extractIpfsLink], the status mapping and the choice
    of the pointer of a record), of the same-origin proxy route
    ([normalize], [buildCandidates], [fetchWithTimeout], [GET]) and of
    the certificate page ([VerifyCertificatePage]: the hexadecimal form
    of the digest, the link test and the status mapping of [submit]).

    JavaScript strings are sequences of UTF-16 code units; they are
    embedded as lists of code units so that [trim], the regular
    expressions and [encodeURIComponent] keep their exact meaning. *)

From Stdlib Require Import String Ascii.
From Stdlib Require Import List NArith ZArith QArith Bool Lia.
Import ListNotations.
Local Open Scope list_scope.

Set Implicit Arguments.

(* ------------------------------------------------------------------ *)
(** ** JavaScript strings *)
(* ------------------------------------------------------------------ *)

Module JS.

Definition jsstring := list N.

(** A literal of the source, all of whose characters are ASCII. *)
Fixpoint lit (s : String.string) : jsstring :=
  match s with
  | String.EmptyString => []
  | String.String a r => Ascii.N_of_ascii a :: lit r
  end.

Arguments lit s%_string.

Fixpoint str_eqb (a b : jsstring) : bool :=
  match a, b with
  | [], [] => true
  | x :: a', y :: b' => N.eqb x y && str_eqb a' b'
  | _, _ => false
  end.

Definition is_empty (s : jsstring) : bool :=
  match s with [] => true | _ => false end.

Definition in_range (lo hi c : N) : bool := N.leb lo c && N.leb c hi.

(** WhiteSpace and LineTerminator code units, the ones [trim] removes. *)
Definition is_white_space (c : N) : bool :=
  in_range 9 13 c || N.eqb c 32 || N.eqb c 160 || N.eqb c 5760
  || in_range 8192 8202 c || N.eqb c 8232 || N.eqb c 8233
  || N.eqb c 8239 || N.eqb c 8287 || N.eqb c 12288 || N.eqb c 65279.

Fixpoint trimStart (s : jsstring) : jsstring :=
  match s with
  | c :: r => if is_white_space c then trimStart r else s
  | [] => []
  end.

Definition trimEnd (s : jsstring) : jsstring := rev (trimStart (rev s)).

Definition trim (s : jsstring) : jsstring := trimEnd (trimStart s).

(** [s.startsWith(p)]. *)
Fixpoint startsWith (p s : jsstring) : bool :=
  match p, s with
  | [], _ => true
  | x :: p', y :: s' => N.eqb x y && startsWith p' s'
  | _ :: _, [] => false
  end.

(** [s.includes(p)]. *)
Fixpoint includes (p s : jsstring) : bool :=
  startsWith p s || match s with [] => false | _ :: r => includes p r end.

(** Canonicalisation of a code unit under the [i] flag (no [u] flag).  A
    code unit outside ASCII never canonicalises to an ASCII one, so that
    for patterns made of ASCII characters only the ASCII letters fold. *)
Definition canon (c : N) : N :=
  if in_range 97 122 c then (c - 32)%N else c.

(** A pattern [/^p/i] for a literal [p]. *)
Fixpoint test_prefix_i (p s : jsstring) : bool :=
  match p, s with
  | [], _ => true
  | x :: p', y :: s' => N.eqb (canon x) (canon y) && test_prefix_i p' s'
  | _ :: _, [] => false
  end.

(** [s.replace(/^p/i, "")]. *)
Definition strip_prefix_i (p s : jsstring) : jsstring :=
  if test_prefix_i p s then skipn (length p) s else s.

(** [s.split("/")]: at least one piece, pieces may be empty. *)
Fixpoint split_on (sep : N) (s : jsstring) : list jsstring :=
  match s with
  | [] => [[]]
  | c :: r =>
      if N.eqb c sep then [] :: split_on sep r
      else match split_on sep r with
           | p :: ps => (c :: p) :: ps
           | [] => [[c]]
           end
  end.

(** [parts.join(sep)]. *)
Fixpoint join (sep : jsstring) (parts : list jsstring) : jsstring :=
  match parts with
  | [] => []
  | [p] => p
  | p :: ps => p ++ sep ++ join sep ps
  end.

End JS.
Import JS.

(* ------------------------------------------------------------------ *)
(** ** JavaScript values, as they come out of [JSON.parse] *)
(* ------------------------------------------------------------------ *)

Module Value.

#[warnings="-register-all"]
Inductive value : Type :=
| VUndefined
| VNull
| VBool (b : bool)
| VNum (q : Q)
| VStr (s : jsstring)
| VArr (items : list value)
| VObj (fields : list (jsstring * value)).

(** [Boolean(v)] *)
Definition truthy (v : value) : bool :=
  match v with
  | VUndefined | VNull => false
  | VBool b => b
  | VNum q => negb (Qeq_bool q 0)
  | VStr s => negb (is_empty s)
  | VArr _ | VObj _ => true
  end.

Definition nullish (v : value) : bool :=
  match v with VUndefined | VNull => true | _ => false end.

(** [a || b] and [a ?? b], for operands without effects. *)
Definition or_else (a b : value) : value := if truthy a then a else b.
Definition coalesce (a b : value) : value := if nullish a then b else a.

(** [v === key] for a string [key]. *)
Definition strict_eq_str (v : value) (key : jsstring) : bool :=
  match v with VStr s => str_eqb s key | _ => false end.

(** Own properties of an object literal, first binding of a key. *)
Fixpoint lookup (k : jsstring) (fields : list (jsstring * value)) : option value :=
  match fields with
  | [] => None
  | (k', v) :: r => if str_eqb k' k then Some v else lookup k r
  end.

(** Evaluation either completes normally or throws. *)
Inductive completion (A : Type) : Type :=
| Normal (a : A)
| Throw.
Arguments Throw {A}.

Definition cbind {A B} (c : completion A) (k : A -> completion B) : completion B :=
  match c with Normal a => k a | Throw => Throw end.

(** [v.k]: a TypeError on [undefined] and [null]; [undefined] for a key
    that the value does not have.  The keys read by the code embedded
    here are no members of the String, Array, Number or Boolean
    prototypes, so that only objects answer with a value. *)
Definition get (v : value) (k : jsstring) : completion value :=
  match v with
  | VUndefined | VNull => Throw
  | VObj fields =>
      Normal (match lookup k fields with Some x => x | None => VUndefined end)
  | _ => Normal VUndefined
  end.

(** [v?.k] *)
Definition get_opt (v : value) (k : jsstring) : completion value :=
  if nullish v then Normal VUndefined else get v k.

(** [items.find(pred)], [undefined] when no item passes. *)
Fixpoint find_c (pred : value -> completion bool) (items : list value)
  : completion value :=
  match items with
  | [] => Normal VUndefined
  | a :: r =>
      cbind (pred a) (fun b => if b then Normal a else find_c pred r)
  end.

End Value.
Import Value.

(* ------------------------------------------------------------------ *)
(** ** The Link Normalizer ([normalize], page and proxy route alike) *)
(* ------------------------------------------------------------------ *)

Module Normalizer.

Definition slash : N := 47.

(** [/^ar:\/\//i] *)
Definition is_ar (link : jsstring) : bool := test_prefix_i (lit "ar://") link.

(** [/^https?:\/\//i] *)
Definition is_http (link : jsstring) : bool :=
  test_prefix_i (lit "https://") link || test_prefix_i (lit "http://") link.

(** [link.replace(/^\/?ipfs\//i, "")] *)
Definition strip_ipfs_path (link : jsstring) : jsstring :=
  if test_prefix_i (lit "/ipfs/") link then skipn 6 link
  else strip_prefix_i (lit "ipfs/") link.

(** The body of [normalize] once [val] has been coerced to a string. *)
Definition normalize_string (link0 : jsstring) : jsstring :=
  let link := trim link0 in
  if is_empty link then []
  else if is_ar link then lit "https://arweave.net/" ++ skipn 5 link
  else if is_http link then link
  else
    let link := strip_prefix_i (lit "ipfs://") link in
    let link := strip_ipfs_path link in
    let link := strip_prefix_i (lit "ipfs/") link in
    link.

Section Coercion.
(** [String(val)] for a value that is neither a string, [null] nor
    [undefined]; [Throw] is the TypeError for a value without a string
    form (an object whose [toString] is not callable, an array that
    holds one). *)
Variable String_ : value -> completion jsstring.

(** [normalize(val: any)] *)
Definition normalize (val : value) : completion jsstring :=
  cbind
    match val with
    | VStr s => Normal s
    | VUndefined | VNull => Normal []
    | _ => String_ val
    end
    (fun link => Normal (normalize_string link)).
End Coercion.

End Normalizer.
Import Normalizer.


Declare Scope completion_scope.
Notation "x <~ c ; k" := (cbind c (fun x => k))
  (at level 61, c at next level, right associativity) : completion_scope.

(* ------------------------------------------------------------------ *)
(** ** The Attribute Extractor ([getAttr]) and [formatDate] *)
(* ------------------------------------------------------------------ *)

Module Attributes.
Local Open Scope completion_scope.

(** [(a?.trait_type || a?.traitType)] *)
Definition trait_of (a : value) : completion value :=
  t <~ get_opt a (lit "trait_type");
  if truthy t then Normal t else get_opt a (lit "traitType").

(** [getAttr], with the [ipfsData] of the component state as argument. *)
Definition getAttr (ipfsData : value) (key : jsstring) : completion value :=
  attrs <~ get_opt ipfsData (lit "attributes");
  match attrs with
  | VArr items =>
      found <~ find_c (fun a => t <~ trait_of a; Normal (strict_eq_str t key)) items;
      v <~ get_opt found (lit "value");
      Normal (coalesce v VNull)
  | _ => Normal VNull
  end.

Definition em_dash : jsstring := [8212%N].

Section FormatDate.
(** The time value of [new Date(d)], [None] when it is [NaN]. *)
Variable Date_time : jsstring -> option Z.
(** [toLocaleDateString] of a date with the given time value. *)
Variable toLocaleDateString : Z -> jsstring.

(** [formatDate(d?: string)]; [None] is a missing argument. *)
Definition formatDate (d : option jsstring) : jsstring :=
  match d with
  | None => em_dash
  | Some s =>
      if is_empty s then em_dash
      else match Date_time s with
           | None => s
           | Some t => toLocaleDateString t
           end
  end.
End FormatDate.

End Attributes.

(* ------------------------------------------------------------------ *)
(** ** The pointer extraction pass ([extractIpfsLink]) *)
(* ------------------------------------------------------------------ *)

Module Extract.

(** [[1-9A-HJ-NP-Za-km-z]] under the [i] flag: a code unit is in the
    class when its canonical form is that of a member. *)
Definition base58_i (c : N) : bool :=
  let u := canon c in
  in_range 49 57 u || in_range 65 72 u || in_range 74 78 u
  || in_range 80 90 u
  || in_range (canon 97) (canon 107) u || in_range (canon 109) (canon 122) u.

(** [[\w-]] under the [i] flag. *)
Definition word_or_dash_i (c : N) : bool :=
  let u := canon c in
  in_range 65 90 u || in_range (canon 97) (canon 122) u
  || in_range 48 57 u || N.eqb u 95 || N.eqb u 45.

(** [prefix] then at least [n] code units of the class, up to the end. *)
Definition prefix_then_class (p : jsstring) (n : nat) (cls : N -> bool)
  (s : jsstring) : bool :=
  test_prefix_i p s
  && let rest := skipn (length p) s in
     Nat.leb n (length rest) && forallb cls rest.

(** [/^(Qm[1-9A-HJ-NP-Za-km-z]{44,}|bafy[\w-]{20,})$/i.test(s)] *)
Definition isStringCid (s : jsstring) : bool :=
  prefix_then_class (lit "Qm") 44 base58_i s
  || prefix_then_class (lit "bafy") 20 word_or_dash_i s.

Definition keys : list jsstring :=
  [lit "ipfs_link"; lit "ipfs"; lit "ip_fs_link"; lit "tokenURI";
   lit "tokenUri"; lit "url"; lit "uri"; lit "href"; lit "link"; lit "src";
   lit "path"; lit "image"; lit "animation_url"; lit "metadata_uri";
   lit "gateway"; lit "cid"; lit "hash"; lit "/"].

(** A result that passes [if (got)]: a non-empty string. *)
Definition got_truthy (got : option jsstring) : bool :=
  match got with Some (_ :: _) => true | _ => false end.

(** [for (const k of keys) if (k in val) { got = ...; if (got) return got }],
    where [sub k] is the result of the recursive call on [val[k]] when
    [k in val]. *)
Fixpoint key_loop (sub : jsstring -> option (option jsstring))
  (ks : list jsstring) : option jsstring :=
  match ks with
  | [] => None
  | k :: r =>
      match sub k with
      | Some got => if got_truthy got then got else key_loop sub r
      | None => key_loop sub r
      end
  end.

(** [[val.cid, val.hash, val["/"]].filter(Boolean)[0]] *)
Definition possible (fields : list (jsstring * value)) : value :=
  let prop k := match lookup k fields with Some x => x | None => VUndefined end in
  match filter truthy [prop (lit "cid"); prop (lit "hash"); prop (lit "/")] with
  | x :: _ => x
  | [] => VUndefined
  end.

(** The last resort of the object case. *)
Definition fallback (fields : list (jsstring * value)) : option jsstring :=
  match possible fields with
  | VStr p => if isStringCid p || startsWith (lit "ipfs://") p then Some p else None
  | _ => None
  end.

Fixpoint assoc {A} (k : jsstring) (l : list (jsstring * A)) : option A :=
  match l with
  | [] => None
  | (k', a) :: r => if str_eqb k' k then Some a else assoc k r
  end.

(** [extractIpfsLink]; [None] is [null].  The recursive calls on the
    fields of an object are made up front, which is the same for a
    function without effects. *)
Fixpoint extractIpfsLink (val : value) : option jsstring :=
  match val with
  | VStr s => if is_empty s then None else Some (trim s)
  | VArr items =>
      (fix each (l : list value) : option jsstring :=
         match l with
         | [] => None
         | it :: r =>
             let got := extractIpfsLink it in
             if got_truthy got then got else each r
         end) items
  | VObj fields =>
      let sub :=
        (fix calls (l : list (jsstring * value)) :=
           match l with
           | [] => []
           | (k, v) :: r => (k, extractIpfsLink v) :: calls r
           end) fields in
      match key_loop (fun k => assoc k sub) keys with
      | Some got => Some got
      | None => fallback fields
      end
  | VUndefined | VNull | VBool _ | VNum _ => None
  end.

(** What the loop over [keys] sees for one key of an object: the result
    of the recursive call when the key is present. *)
Definition key_result (fields : list (jsstring * value)) (k : jsstring)
  : option (option jsstring) :=
  option_map extractIpfsLink (lookup k fields).

End Extract.

(* ------------------------------------------------------------------ *)
(** ** The network, and code that awaits it *)
(* ------------------------------------------------------------------ *)

Module Net.

(** The arguments of one [fetch]: the URL and the options that the two
    programs set.  [req_abort_ms] is the delay of the timer that aborts
    the request through its [signal]; [None] when no signal is passed. *)
Record request : Type := mkRequest {
  req_url : jsstring;
  req_mode_cors : bool;
  req_no_store : bool;
  req_accept : option jsstring;
  req_abort_ms : option N
}.

(** Reading the body of a response: its text, a failure, or no end. *)
Inductive body : Type :=
| BodyText (text : jsstring)
| BodyError
| BodyStall.

Record response : Type := mkResponse {
  resp_ok : bool;
  resp_content_type : option jsstring;
  resp_body : body
}.

(** What the network does with a request: a response after so many
    milliseconds, a transport error, or nothing at all. *)
Inductive outcome : Type :=
| Responds (after_ms : N) (r : response)
| Rejects
| Silent.

Definition network := request -> outcome.

(** What an invocation does that can be seen from outside: the requests
    it sends and the calls of the state setters of the page. *)
Inductive event : Type :=
| Fetched (rq : request)
| SetIpfsLoading (b : bool)
| SetIpfsError (e : option jsstring)
| SetIpfsData (v : value)
| SetIpfsResolvedUrl (v : value)
| SetIpfsFallbackUrls (urls : list jsstring).

(** An awaited computation returns, throws, or never settles. *)
Inductive result (A : Type) : Type :=
| Ret (a : A)
| Raise
| Hang.
Arguments Raise {A}.
Arguments Hang {A}.

Definition M (A : Type) : Type := network -> list event * result A.

Definition ret {A} (a : A) : M A := fun _ => ([], Ret a).

Definition bind {A B} (m : M A) (k : A -> M B) : M B :=
  fun net =>
    match m net with
    | (log, Ret a) => let (log', r) := k a net in (log ++ log', r)
    | (log, Raise) => (log, Raise)
    | (log, Hang) => (log, Hang)
    end.

(** [try { m } catch { h }] *)
Definition try_catch {A} (m h : M A) : M A :=
  fun net =>
    match m net with
    | (log, Raise) => let (log', r) := h net in (log ++ log', r)
    | settled => settled
    end.

Definition emit (e : event) : M unit := fun _ => ([e], Ret tt).

Definition throw {A} : M A := fun _ => ([], Raise).

Definition of_option {A} (o : option A) : M A :=
  match o with Some a => ret a | None => throw end.

Definition of_completion {A} (c : completion A) : M A :=
  match c with Normal a => ret a | Throw => throw end.

(** [await fetch(url, init)].  A request with an abort timer is rejected
    when no response has arrived by the time the timer fires; one
    without waits for as long as it takes. *)
Definition fetch (rq : request) : M response :=
  fun net =>
    ([Fetched rq],
     match net rq, req_abort_ms rq with
     | Responds after r, Some ms => if N.ltb after ms then Ret r else Raise
     | Responds _ r, None => Ret r
     | Rejects, _ => Raise
     | Silent, Some _ => Raise
     | Silent, None => Hang
     end).

(** [await r.text()] *)
Definition text (r : response) : M jsstring :=
  fun _ =>
    ([], match resp_body r with
         | BodyText t => Ret t
         | BodyError => Raise
         | BodyStall => Hang
         end).

(** [r.headers.get("content-type") || ""] *)
Definition content_type_or_empty (r : response) : jsstring :=
  match resp_content_type r with Some ct => ct | None => [] end.

Definition requests (log : list event) : list request :=
  flat_map (fun e => match e with Fetched rq => [rq] | _ => [] end) log.

End Net.
Import Net.

Declare Scope await_scope.
Notation "x <- c ;; k" := (bind c (fun x => k))
  (at level 61, c at next level, right associativity) : await_scope.
Notation "c ;; k" := (bind c (fun _ => k))
  (at level 61, right associativity) : await_scope.

(* ------------------------------------------------------------------ *)
(** ** The Candidate Resolver *)
(* ------------------------------------------------------------------ *)

Module Candidates.

(** [encodeURIComponent]: [None] is the URIError on a lone surrogate. *)
Definition unreserved (c : N) : bool :=
  in_range 65 90 c || in_range 97 122 c || in_range 48 57 c
  || existsb (N.eqb c) [45; 95; 46; 33; 126; 42; 39; 40; 41]%N.

Definition hex_digit (n : N) : N :=
  if N.ltb n 10 then (48 + n)%N else (55 + n)%N.

Definition percent (b : N) : jsstring :=
  [37%N; hex_digit (b / 16); hex_digit (b mod 16)].

Definition utf8 (cp : N) : list N :=
  (if cp <? 128 then [cp]
   else if cp <? 2048 then [192 + cp / 64; 128 + cp mod 64]
   else if cp <? 65536 then
     [224 + cp / 4096; 128 + (cp / 64) mod 64; 128 + cp mod 64]
   else
     [240 + cp / 262144; 128 + (cp / 4096) mod 64;
      128 + (cp / 64) mod 64; 128 + cp mod 64])%N.

Definition escape (cp : N) : jsstring := flat_map percent (utf8 cp).

Fixpoint encodeURIComponent (s : jsstring) : option jsstring :=
  match s with
  | [] => Some []
  | c :: r =>
      if unreserved c then option_map (cons c) (encodeURIComponent r)
      else if in_range 56320 57343 c then None
      else if in_range 55296 56319 c then
        match r with
        | d :: r' =>
            if in_range 56320 57343 d then
              option_map
                (app (escape (65536 + (c - 55296) * 1024 + (d - 56320))%N))
                (encodeURIComponent r')
            else None
        | [] => None
        end
      else option_map (app (escape c)) (encodeURIComponent r)
  end.

(** [parts = src.split("/").filter(Boolean); cid = parts.shift() || "";
    path = parts.length ? `/${parts.join("/")}` : ""], the three lines
    that [fetchIpfs] and [buildCandidates] have in common. *)
Definition cid_and_path (src : jsstring) : jsstring * jsstring :=
  let parts := filter (fun p => negb (is_empty p)) (split_on slash src) in
  let cid := hd [] parts in
  let parts := tl parts in
  let path :=
    match parts with
    | [] => []
    | _ :: _ => lit "/" ++ join (lit "/") parts
    end in
  (cid, path).

Definition pathGateways : list (jsstring -> jsstring -> jsstring) :=
  [ (fun h p => lit "https://cloudflare-ipfs.com/ipfs/" ++ h ++ p);
    (fun h p => lit "https://ipfs.io/ipfs/" ++ h ++ p);
    (fun h p => lit "https://nftstorage.link/ipfs/" ++ h ++ p);
    (fun h p => lit "https://dweb.link/ipfs/" ++ h ++ p);
    (fun h p => lit "https://gateway.pinata.cloud/ipfs/" ++ h ++ p) ].

Definition subdomainGateways : list (jsstring -> jsstring -> jsstring) :=
  [ (fun h p => lit "https://" ++ h ++ lit ".ipfs.nftstorage.link" ++ p);
    (fun h p => lit "https://" ++ h ++ lit ".ipfs.dweb.link" ++ p) ].

(** [buildCandidates] of the proxy route. *)
Definition buildCandidates (src : jsstring) : list jsstring :=
  if is_http src then [src]
  else
    let (cid, path) := cid_and_path src in
    map (fun g => g cid path) pathGateways
    ++ map (fun g => g cid path) subdomainGateways.

(** The list [tryUrls] that [fetchIpfs] builds for its own fallback; its
    [gateways] are the [pathGateways] of the route. *)
Definition pageCandidates (normalized : jsstring) : list jsstring :=
  if is_http normalized then [normalized]
  else
    let (cid, path) := cid_and_path normalized in
    map (fun g => g cid path) pathGateways.

End Candidates.
Import Candidates.

(* ------------------------------------------------------------------ *)
(** ** The Fetch Pipeline of the page ([fetchIpfs]) *)
(* ------------------------------------------------------------------ *)

Module Page.
Local Open Scope await_scope.

(** The state of the component that [fetchIpfs] writes. *)
Record state : Type := mkState {
  ipfsData : value;
  ipfsLoading : bool;
  ipfsError : option jsstring;
  ipfsResolvedUrl : value;
  ipfsFallbackUrls : list jsstring
}.

(** [useState] initial values. *)
Definition initial : state :=
  {| ipfsData := VNull; ipfsLoading := false; ipfsError := None;
     ipfsResolvedUrl := VNull; ipfsFallbackUrls := [] |}.

Definition apply_event (st : state) (e : event) : state :=
  match e with
  | Fetched _ => st
  | SetIpfsLoading b =>
      {| ipfsData := ipfsData st; ipfsLoading := b; ipfsError := ipfsError st;
         ipfsResolvedUrl := ipfsResolvedUrl st;
         ipfsFallbackUrls := ipfsFallbackUrls st |}
  | SetIpfsError e =>
      {| ipfsData := ipfsData st; ipfsLoading := ipfsLoading st; ipfsError := e;
         ipfsResolvedUrl := ipfsResolvedUrl st;
         ipfsFallbackUrls := ipfsFallbackUrls st |}
  | SetIpfsData v =>
      {| ipfsData := v; ipfsLoading := ipfsLoading st; ipfsError := ipfsError st;
         ipfsResolvedUrl := ipfsResolvedUrl st;
         ipfsFallbackUrls := ipfsFallbackUrls st |}
  | SetIpfsResolvedUrl v =>
      {| ipfsData := ipfsData st; ipfsLoading := ipfsLoading st;
         ipfsError := ipfsError st; ipfsResolvedUrl := v;
         ipfsFallbackUrls := ipfsFallbackUrls st |}
  | SetIpfsFallbackUrls urls =>
      {| ipfsData := ipfsData st; ipfsLoading := ipfsLoading st;
         ipfsError := ipfsError st; ipfsResolvedUrl := ipfsResolvedUrl st;
         ipfsFallbackUrls := urls |}
  end.

(** The state once the setter calls of a log have taken effect. *)
Definition state_after (st : state) (log : list event) : state :=
  fold_left apply_event log st.

(** [fetch(proxyUrl, { cache: "no-store" })] *)
Definition proxy_request (proxyUrl : jsstring) : request :=
  {| req_url := proxyUrl; req_mode_cors := false; req_no_store := true;
     req_accept := None; req_abort_ms := None |}.

(** [fetch(url, { mode: "cors" })] *)
Definition gateway_request (url : jsstring) : request :=
  {| req_url := url; req_mode_cors := true; req_no_store := false;
     req_accept := None; req_abort_ms := None |}.

Definition exhausted_message : jsstring :=
  lit "Unable to load IPFS content from public gateways.".

Section FetchIpfs.
Variable String_ : value -> completion jsstring.
(** [JSON.parse], [None] when it throws. *)
Variable JSON_parse : jsstring -> option value.

(** [await r.json()] *)
Definition json (r : response) : M value :=
  t <- text r ;; of_option (JSON_parse t).

(** The [try] block around the proxy call; [true] when the function
    has returned from inside it. *)
Definition try_proxy (normalized : jsstring) : M bool :=
  try_catch
    (q <- of_option (encodeURIComponent normalized) ;;
     let proxyUrl := lit "/api/ipfs?src=" ++ q in
     pr <- fetch (proxy_request proxyUrl) ;;
     if resp_ok pr then
       payload <- json pr ;;
       okv <- of_completion (get_opt payload (lit "ok")) ;;
       if truthy okv then
         data <- of_completion (get payload (lit "data")) ;;
         emit (SetIpfsData data) ;;
         resolvedUrl <- of_completion (get payload (lit "resolvedUrl")) ;;
         emit (SetIpfsResolvedUrl (or_else resolvedUrl VNull)) ;;
         emit (SetIpfsError None) ;;
         emit (SetIpfsLoading false) ;;
         ret true
       else ret false
     else ret false)
    (ret false).

(** One turn of the loop over [tryUrls]; [true] is [success]. *)
Definition try_gateway (url : jsstring) : M bool :=
  try_catch
    (r <- fetch (gateway_request url) ;;
     if negb (resp_ok r) then ret false
     else
       let ct := content_type_or_empty r in
       (if includes (lit "application/json") ct
           || includes (lit "text/json") ct
        then
          j <- json r ;; emit (SetIpfsData j)
        else
          t <- text r ;;
          match JSON_parse t with
          | Some v => emit (SetIpfsData v)
          | None => emit (SetIpfsData (VObj [(lit "content", VStr t)]))
          end) ;;
       emit (SetIpfsResolvedUrl (VStr url)) ;;
       ret true)
    (ret false).

Fixpoint try_gateways (tryUrls : list jsstring) : M bool :=
  match tryUrls with
  | [] => ret false
  | url :: rest =>
      success <- try_gateway url ;;
      if success then ret true else try_gateways rest
  end.

Definition fetchIpfs (rawIpfs : value) : M unit :=
  if negb (truthy rawIpfs) then ret tt
  else
    emit (SetIpfsLoading true) ;;
    emit (SetIpfsError None) ;;
    emit (SetIpfsData VNull) ;;
    emit (SetIpfsResolvedUrl VNull) ;;
    normalized <- of_completion (normalize String_ rawIpfs) ;;
    if is_empty normalized then emit (SetIpfsLoading false)
    else
      returned <- try_proxy normalized ;;
      if returned then ret tt
      else
        let tryUrls := pageCandidates normalized in
        emit (SetIpfsFallbackUrls tryUrls) ;;
        success <- try_gateways tryUrls ;;
        (if negb success then emit (SetIpfsError (Some exhausted_message))
         else ret tt) ;;
        emit (SetIpfsLoading false).

End FetchIpfs.

End Page.

(* ------------------------------------------------------------------ *)
(** ** The proxy route ([fetchWithTimeout], [GET]) *)
(* ------------------------------------------------------------------ *)

Module Route.
Local Open Scope await_scope.

(** A [NextResponse.json(body, { status })]. *)
Record http_response : Type := mkHttp {
  status : N;
  envelope : value
}.

(** [fetchWithTimeout(url, ms)]: the timer is armed before the request
    and cleared as soon as [fetch] has settled. *)
Definition timed_request (url : jsstring) (ms : N) : request :=
  {| req_url := url; req_mode_cors := false; req_no_store := true;
     req_accept := Some (lit "application/json,text/plain,*/*");
     req_abort_ms := Some ms |}.

Definition fetchWithTimeout (url : jsstring) (ms : N) : M response :=
  fetch (timed_request url ms).

Definition success_envelope (url ct : jsstring) (data : value) : http_response :=
  {| status := 200;
     envelope := VObj [(lit "ok", VBool true); (lit "resolvedUrl", VStr url);
                       (lit "contentType", VStr ct); (lit "data", data)] |}.

Definition missing_src : http_response :=
  {| status := 400;
     envelope := VObj [(lit "ok", VBool false);
                       (lit "error", VStr (lit "Missing or invalid src"))] |}.

Definition all_failed (tryUrls : list jsstring) : http_response :=
  {| status := 502;
     envelope :=
       VObj [(lit "ok", VBool false);
             (lit "error",
              VStr (lit "All public gateways failed (timeout/CORS/content missing)."));
             (lit "candidates", VArr (map VStr tryUrls))] |}.

Section Get.
Variable String_ : value -> completion jsstring.
Variable JSON_parse : jsstring -> option value.

(** One turn of the loop of [GET]; [Some] is a [return] from it. *)
Definition try_candidate (url : jsstring) : M (option http_response) :=
  try_catch
    (r <- fetchWithTimeout url 8000 ;;
     if negb (resp_ok r) then ret None
     else
       let ct := content_type_or_empty r in
       if includes (lit "application/json") ct
          || includes (lit "text/json") ct
       then
         data <- Page.json JSON_parse r ;;
         ret (Some (success_envelope url ct data))
       else
         t <- text r ;;
         let data := match JSON_parse t with Some v => v | None => VStr t end in
         ret (Some (success_envelope url ct data)))
    (ret None).

Fixpoint try_candidates (tryUrls : list jsstring) : M (option http_response) :=
  match tryUrls with
  | [] => ret None
  | url :: rest =>
      returned <- try_candidate url ;;
      match returned with
      | Some resp => ret (Some resp)
      | None => try_candidates rest
      end
  end.

(** [GET(req)], with the value of [searchParams.get("src")] as argument
    ([None] when the parameter is absent). *)
Definition GET (src_param : option jsstring) : M http_response :=
  let raw := match src_param with Some s => s | None => [] end in
  src <- of_completion (normalize String_ (VStr raw)) ;;
  if is_empty src then ret missing_src
  else
    let tryUrls := buildCandidates src in
    returned <- try_candidates tryUrls ;;
    match returned with
    | Some resp => ret resp
    | None => ret (all_failed tryUrls)
    end.

End Get.

End Route.

(* ------------------------------------------------------------------ *)
(** ** The verification-status mapping (both pages) *)
(* ------------------------------------------------------------------ *)

Module Status.

Inductive status : Type := VERIFIED | NOT_FOUND | TAMPERED.

Definition verified_names : list jsstring :=
  [lit "VERIFIED"; lit "VALID"; lit "SUCCESS"].
Definition not_found_names : list jsstring :=
  [lit "NOT_FOUND"; lit "MISSING"; lit "NO_MATCH"].
Definition tampered_names : list jsstring :=
  [lit "TAMPERED"; lit "INVALID"; lit "MANIPULATED"].

(** [names.includes(s)] *)
Definition array_includes (names : list jsstring) (s : jsstring) : bool :=
  existsb (fun n => str_eqb n s) names.

Section Mapping.
(** [v.toString()] for a truthy value that is not a string; [Throw] is
    the TypeError for a value whose [toString] is not callable. *)
Variable toString : value -> completion jsstring.
Variable toUpperCase : jsstring -> jsstring.

(** [(data.status || data.result || "").toString().toUpperCase()],
    for the [data = res.data || {}] of the pages. *)
Definition rawStatus (res_data : value) : completion jsstring :=
  let data := or_else res_data (VObj []) in
  cbind (get data (lit "status")) (fun s =>
  cbind (if truthy s then Normal s else get data (lit "result")) (fun sr =>
  let v := or_else sr (VStr []) in
  cbind (match v with VStr x => Normal x | _ => toString v end) (fun str =>
  Normal (toUpperCase str)))).

Definition map_status (raw : jsstring) : status :=
  if array_includes verified_names raw then VERIFIED
  else if array_includes not_found_names raw then NOT_FOUND
  else if array_includes tampered_names raw then TAMPERED
  else VERIFIED.

(** The [status] that the pages put into [result]. *)
Definition credential_status (res_data : value) : completion status :=
  cbind (rawStatus res_data) (fun raw => Normal (map_status raw)).
End Mapping.

End Status.

(* ------------------------------------------------------------------ *)
(** ** Reference readings of the attribute lookup, and sample platforms *)
(* ------------------------------------------------------------------ *)

Module Reading.

(** The property [k] of [v] as [v?.k] gives it, without the bookkeeping
    of exceptions. *)
Definition prop (v : value) (k : jsstring) : value :=
  match v with
  | VObj fields => match lookup k fields with Some x => x | None => VUndefined end
  | _ => VUndefined
  end.

(** The trait type of an entry, under either spelling. *)
Definition entry_trait (a : value) : value :=
  or_else (prop a (lit "trait_type")) (prop a (lit "traitType")).

Definition entry_matches (key : jsstring) (a : value) : bool :=
  strict_eq_str (entry_trait a) key.

(** The [attributes] of the metadata when they are a proper list. *)
Definition attributes_list (data : value) : option (list value) :=
  match prop data (lit "attributes") with
  | VArr items => Some items
  | _ => None
  end.

(** The attribute lookup in the words of its contract: the value of the
    first entry whose trait type is the label, the absent marker when
    there is no list or no such entry. *)
Definition first_matching_value (data : value) (key : jsstring) : value :=
  match attributes_list data with
  | Some items =>
      match find (entry_matches key) items with
      | Some a => coalesce (prop a (lit "value")) VNull
      | None => VNull
      end
  | None => VNull
  end.

(** A scheme name followed by [://] at the start of a string. *)
Definition alpha (c : N) : bool := in_range 65 90 c || in_range 97 122 c.

Definition scheme_char (c : N) : bool :=
  alpha c || in_range 48 57 c || N.eqb c 43 || N.eqb c 45 || N.eqb c 46.

Fixpoint scheme_tail (s : jsstring) : bool :=
  startsWith (lit "://") s
  || match s with
     | c :: r => scheme_char c && scheme_tail r
     | [] => false
     end.

Definition protocol_prefix (s : jsstring) : bool :=
  match s with
  | c :: r => alpha c && scheme_tail r
  | [] => false
  end.

(** The class raw-cid of an output of the normalizer: not empty and no
    http(s) URL (an Arweave rewrite is an https URL). *)
Definition raw_cid (out : jsstring) : bool :=
  negb (is_empty out) && negb (is_http out).

End Reading.
Import Reading.

(* ------------------------------------------------------------------ *)
(** ** What it means for an attempt of the pipeline to fail *)
(* ------------------------------------------------------------------ *)

Module Attempts.

Definition proxy_url (q : jsstring) : jsstring := lit "/api/ipfs?src=" ++ q.

(** A request to the same-origin proxy route. *)
Definition is_proxy_call (rq : request) : bool :=
  startsWith (lit "/api/ipfs?src=") (req_url rq).

(** The log of a proxy attempt that fails: the request, when there is
    one, and no call of a setter. *)
Definition failed_proxy_log (normalized : jsstring) : list event :=
  match encodeURIComponent normalized with
  | Some q => [Fetched (Page.proxy_request (proxy_url q))]
  | None => []
  end.

(** [ct.includes("application/json") || ct.includes("text/json")] *)
Definition json_flavored (r : response) : bool :=
  includes (lit "application/json") (content_type_or_empty r)
  || includes (lit "text/json") (content_type_or_empty r).

Section Outcome.
Variable JSON_parse : jsstring -> option value.
Variable net : network.

(** The proxy attempt fails: the identifier cannot be encoded, the
    request is rejected, the status is not ok, the body cannot be read
    or is no JSON, or the envelope does not say [ok].  (A request that
    is never answered does not fail: it does not end.) *)
Definition proxy_fails (normalized : jsstring) : bool :=
  match encodeURIComponent normalized with
  | None => true
  | Some q =>
      match net (Page.proxy_request (proxy_url q)) with
      | Rejects => true
      | Silent => false
      | Responds _ r =>
          negb (resp_ok r)
          || match resp_body r with
             | BodyError => true
             | BodyStall => false
             | BodyText t =>
                 match JSON_parse t with
                 | None => true
                 | Some payload =>
                     negb (truthy (prop payload (lit "ok")))
                 end
             end
      end
  end.

(** A gateway candidate fails: the request is rejected, the status is
    not ok, the body cannot be read, or a body announced as JSON is
    none. *)
Definition gateway_fails (url : jsstring) : bool :=
  match net (Page.gateway_request url) with
  | Rejects => true
  | Silent => false
  | Responds _ r =>
      negb (resp_ok r)
      || match resp_body r with
         | BodyError => true
         | BodyStall => false
         | BodyText t =>
             json_flavored r
             && match JSON_parse t with None => true | Some _ => false end
         end
  end.
End Outcome.

(** No response of the network has a body that stalls. *)
Definition bodies_end (net : network) : Prop :=
  forall rq after r, net rq = Responds after r -> resp_body r <> BodyStall.

End Attempts.
Import Attempts.

Module Samples.

(** The metadata of the scenario:
    [{name: "BSc Physics", attributes: [{trait_type: "GPA", value: "3.8"}]}] *)
Definition bsc_physics : value :=
  VObj [(lit "name", VStr (lit "BSc Physics"));
        (lit "attributes",
         VArr [VObj [(lit "trait_type", VStr (lit "GPA"));
                     (lit "value", VStr (lit "3.8"))]])].

(** [String] on the booleans and on objects. *)
Definition String_sample (v : value) : jsstring :=
  match v with
  | VBool true => lit "true"
  | VBool false => lit "false"
  | _ => lit "[object Object]"
  end.

(** [String(v)] and [v.toString()] on the booleans and on objects.  An
    object that comes out of [JSON.parse] with a key [toString] of its
    own has no string form: the value under the key is no function. *)
Definition String_conversion (v : value) : completion jsstring :=
  match v with
  | VObj fields =>
      match lookup (lit "toString") fields with
      | Some _ => Throw
      | None => Normal (lit "[object Object]")
      end
  | _ => Normal (String_sample v)
  end.

(** [toUpperCase] on ASCII strings. *)
Definition toUpperCase_ascii (s : jsstring) : jsstring := map canon s.

(** A date parser that knows one date, and a formatter for it. *)
Definition Date_time_sample (s : jsstring) : option Z :=
  if str_eqb s (lit "2024-01-15") then Some 1705276800000%Z else None.

Definition toLocaleDateString_sample (t : Z) : jsstring :=
  if Z.eqb t 1705276800000 then lit "1/15/2024" else lit "Invalid Date".

Definition quoted (s : jsstring) : jsstring := [34%N] ++ s ++ [34%N].

(** The body of a successful answer of the proxy route. *)
Definition envelope_text : jsstring :=
  lit "{" ++ quoted (lit "ok") ++ lit ":true,"
  ++ quoted (lit "resolvedUrl") ++ lit ":"
  ++ quoted (lit "https://ipfs.io/ipfs/QmX") ++ lit ","
  ++ quoted (lit "data") ++ lit ":{" ++ quoted (lit "name") ++ lit ":"
  ++ quoted (lit "BSc Physics") ++ lit "}}".

Definition envelope_value : value :=
  VObj [(lit "ok", VBool true);
        (lit "resolvedUrl", VStr (lit "https://ipfs.io/ipfs/QmX"));
        (lit "data", VObj [(lit "name", VStr (lit "BSc Physics"))])].

(** [JSON.parse] on the one text above. *)
Definition JSON_parse_sample (t : jsstring) : option value :=
  if str_eqb t envelope_text then Some envelope_value else None.

(** A network in which the proxy route answers with that text, and
    nothing else answers. *)
Definition proxy_answers : network :=
  fun rq =>
    if startsWith (lit "/api/ipfs?src=") (req_url rq) then
      Responds 120 {| resp_ok := true;
                      resp_content_type := Some (lit "application/json");
                      resp_body := BodyText envelope_text |}
    else Rejects.

Definition all_reject : network := fun _ => Rejects.
Definition all_silent : network := fun _ => Silent.

End Samples.
Import Samples.

(* ------------------------------------------------------------------ *)
(** ** The caller of [fetchIpfs]: choosing the pointer of a record *)
(* ------------------------------------------------------------------ *)

Module Caller.
Import Extract.

(** [a || b] on two results of [extractIpfsLink]. *)
Definition or_got (a b : option jsstring) : option jsstring :=
  if got_truthy a then a else b.

(** [data?.ipfs_link || data?.ip_fs_link || ... || null], the value
    [ipfs] of the effect that loads the credential record. *)
Definition ipfs_field (data : value) : value :=
  let credential := prop data (lit "credential") in
  or_else (prop data (lit "ipfs_link"))
    (or_else (prop data (lit "ip_fs_link"))
       (or_else (prop data (lit "ipfsHash"))
          (or_else (prop data (lit "ipfs"))
             (or_else (prop data (lit "tokenURI"))
                (or_else (prop data (lit "tokenUri"))
                   (or_else (prop credential (lit "ipfs_link"))
                      (or_else (prop credential (lit "tokenURI"))
                         (or_else (prop credential (lit "tokenUri"))
                            VNull)))))))).

(** [extractIpfsLink(ipfs) || extractIpfsLink(data?.credential) ||
    extractIpfsLink(data)] *)
Definition ipfsCandidate (data : value) : option jsstring :=
  or_got (extractIpfsLink (ipfs_field data))
    (or_got (extractIpfsLink (prop data (lit "credential")))
       (extractIpfsLink data)).

(** [typeof ipfsCandidate === "string" ? ipfsCandidate.trim() : ""] *)
Definition ipfsStr (data : value) : jsstring :=
  match ipfsCandidate data with
  | Some s => trim s
  | None => []
  end.

Section Effect.
Variable toString : value -> completion jsstring.
Variable toUpperCase : jsstring -> jsstring.

(** The [try] block of the effect once [axios.get] has answered with
    [res.data]: the status is computed first, then the pointer.  The
    result is the argument of the call [fetchIpfs(ipfsStr)], [None] when
    the effect makes no call.  A throw of the status computation goes
    to the [catch] of the effect, which sets [error]: the lines that
    choose the pointer are not reached and no call is made. *)
Definition pointer_to_resolve (res_data : value) : completion (option jsstring) :=
  cbind (Status.credential_status toString toUpperCase res_data) (fun _ =>
  let data := or_else res_data (VObj []) in
  Normal (if is_empty (ipfsStr data) then None else Some (ipfsStr data))).
End Effect.

End Caller.
Import Caller.

(* ------------------------------------------------------------------ *)
(** ** The certificate page ([VerifyCertificatePage]) *)
(* ------------------------------------------------------------------ *)

Module Certificate.

(** A digit of [Number.prototype.toString(16)]. *)
Definition hex_lower (d : N) : N :=
  if N.ltb d 10 then (48 + d)%N else (87 + d)%N.

Fixpoint hex_digits (fuel : nat) (n : N) (acc : jsstring) : jsstring :=
  match fuel with
  | O => acc
  | S fuel' =>
      let acc' := hex_lower (n mod 16) :: acc in
      if N.eqb (n / 16) 0 then acc' else hex_digits fuel' (n / 16) acc'
  end.

(** [b.toString(16)] for a non-negative integer. *)
Definition toString16 (b : N) : jsstring :=
  hex_digits (S (N.to_nat (N.size b))) b [].

(** [s.padStart(2, "0")] *)
Definition padStart2 (s : jsstring) : jsstring :=
  repeat 48%N (2 - length s) ++ s.

(** [bytes.map((b) => b.toString(16).padStart(2, "0")).join("")], the
    last line of [sha256]. *)
Definition hex_of_bytes (bytes : list N) : jsstring :=
  concat (map (fun b => padStart2 (toString16 b)) bytes).

(** [\w] under the [i] flag. *)
Definition word_i (c : N) : bool :=
  let u := canon c in
  in_range 65 90 u || in_range (canon 97) (canon 122) u
  || in_range 48 57 u || N.eqb u 95.

(** [linkValue.match(re)] is not [null], for the pattern [re] of
    [submit]: [\/verify\/], then a group of one [\w] and any number of
    [[\w-]], under the [i] flag.  Somewhere in the text there is
    [/verify/] and then a word character. *)
Fixpoint link_matches (s : jsstring) : bool :=
  (test_prefix_i (lit "/verify/") s
   && match skipn 8 s with
      | c :: _ => word_i c
      | [] => false
      end)
  || match s with
     | [] => false
     | _ :: r => link_matches r
     end.

(** What [submit] does in link mode: it sets [window.location.href], or
    it sets the status [error] and this message. *)
Inductive link_action : Type :=
| Navigate (href : jsstring)
| Refuse (message : jsstring).

Definition submit_link (linkValue : jsstring) : link_action :=
  if link_matches linkValue then Navigate linkValue
  else Refuse (lit "Unrecognized link. Please paste a valid credential link.").

Inductive verdict : Type := DOC_VERIFIED | DOC_NOT_FOUND | DOC_TAMPERED.

(** The mapping of [submit] from the upper-cased status of the backend
    to the status shown. *)
Definition map_document_status (raw : jsstring) : verdict :=
  if Status.array_includes
       [lit "VERIFIED"; lit "VALID"; lit "AUTHENTIC"; lit "ORIGINAL"] raw
  then DOC_VERIFIED
  else if includes (lit "TAMPER") raw
          || includes (lit "MISMATCH") raw
          || Status.array_includes [lit "INVALID"; lit "FORGED"; lit "FAKE"] raw
  then DOC_TAMPERED
  else if includes (lit "NOT_FOUND") raw
          || includes (lit "NO_MATCH") raw
          || Status.array_includes
               [lit "UNKNOWN"; lit "MISSING"; lit "NO_RECORD"] raw
  then DOC_NOT_FOUND
  else DOC_TAMPERED.

Section DocumentStatus.
(** [String(v)] for a truthy value that is not a string; [Throw] is the
    TypeError for a value that has no string form. *)
Variable String_ : value -> completion jsstring.
Variable toUpperCase : jsstring -> jsstring.

(** [String(data?.status || data?.result || "").toUpperCase()] *)
Definition raw_document_status (data : value) : completion jsstring :=
  let v := or_else (prop data (lit "status"))
             (or_else (prop data (lit "result")) (VStr [])) in
  cbind (match v with VStr s => Normal s | _ => String_ v end) (fun str =>
  Normal (toUpperCase str)).

(** The status that [submit] sets after the mapping; a throw goes to the
    [catch] of [submit], which sets the status [error]. *)
Definition document_verdict (data : value) : completion verdict :=
  cbind (raw_document_status data) (fun raw =>
  Normal (map_document_status raw)).
End DocumentStatus.

End Certificate.
Import Certificate.

(* ------------------------------------------------------------------ *)
(** ** Reference readings for the pipelines *)
(* ------------------------------------------------------------------ *)

Module Readings.

(** The value whose string form is the status of a record:
    [data.status || data.result || ""], for [data = res.data || {}]. *)
Definition status_value (res_data : value) : value :=
  let data := or_else res_data (VObj []) in
  or_else (or_else (prop data (lit "status")) (prop data (lit "result")))
    (VStr []).

(** Inverse of [hex_lower] on the sixteen digits. *)
Definition unhex_digit (c : N) : N :=
  if N.ltb c 58 then (c - 48)%N else (c - 87)%N.

(** Reads a string of pairs of hexadecimal digits back into bytes. *)
Fixpoint bytes_of_hex (s : jsstring) : list N :=
  match s with
  | hi :: lo :: r => (unhex_digit hi * 16 + unhex_digit lo)%N :: bytes_of_hex r
  | _ => []
  end.

Definition is_hex_lower (c : N) : bool := in_range 48 57 c || in_range 97 102 c.

(** [p] occurs in [s] when the case of ASCII letters is ignored. *)
Fixpoint includes_i (p s : jsstring) : bool :=
  test_prefix_i p s || match s with [] => false | _ :: r => includes_i p r end.

(** A string that [trim] leaves alone at its start. *)
Definition starts_clean (s : jsstring) : Prop :=
  match s with
  | [] => True
  | c :: _ => is_white_space c = false
  end.

Section Gateways.
Variable JSON_parse : jsstring -> option value.
Variable net : network.

(** What the page stores for the text of a successful gateway response:
    the parsed JSON, or the raw text under [content]. *)
Definition page_data (t : jsstring) : value :=
  match JSON_parse t with
  | Some v => v
  | None => VObj [(lit "content", VStr t)]
  end.

(** What the route puts under [data] for such a text: the parsed JSON,
    or the raw text itself. *)
Definition route_data (t : jsstring) : value :=
  match JSON_parse t with
  | Some v => v
  | None => VStr t
  end.

(** A gateway answers with an ok status and a body that can be used. *)
Definition usable (r : response) (t : jsstring) : Prop :=
  resp_ok r = true
  /\ resp_body r = BodyText t
  /\ (json_flavored r = true -> JSON_parse t <> None).

(** A candidate of the route fails: the request is rejected, is not
    answered within 8000 ms, has a status that is not ok, a body that
    cannot be read, or a body announced as JSON that is none. *)
Definition candidate_fails (url : jsstring) : bool :=
  match net (Route.timed_request url 8000) with
  | Rejects => true
  | Silent => true
  | Responds after r =>
      negb (N.ltb after 8000)
      || negb (resp_ok r)
      || match resp_body r with
         | BodyError => true
         | BodyStall => false
         | BodyText t =>
             json_flavored r
             && match JSON_parse t with None => true | Some _ => false end
         end
  end.
End Gateways.

Local Open Scope await_scope.

(** What an invocation of [fetchIpfs] does for a truthy argument once
    [normalize] has returned [normalized]: the four resets, the guard on
    the empty pointer, the proxy attempt and the gateway loop. *)
Definition fetchIpfs_resolving (JSON_parse : jsstring -> option value)
  (normalized : jsstring) : M unit :=
  (emit (SetIpfsLoading true) ;;
   emit (SetIpfsError None) ;;
   emit (SetIpfsData VNull) ;;
   emit (SetIpfsResolvedUrl VNull) ;;
   if is_empty normalized then emit (SetIpfsLoading false)
   else
     returned <- Page.try_proxy JSON_parse normalized ;;
     if returned then ret tt
     else
       let tryUrls := pageCandidates normalized in
       emit (SetIpfsFallbackUrls tryUrls) ;;
       success <- Page.try_gateways JSON_parse tryUrls ;;
       (if negb success
        then emit (SetIpfsError (Some Page.exhausted_message))
        else ret tt) ;;
       emit (SetIpfsLoading false)).

(** The four state resets at the start of [fetchIpfs]. *)
Definition resets : list event :=
  [SetIpfsLoading true; SetIpfsError None; SetIpfsData VNull;
   SetIpfsResolvedUrl VNull].

(** Every request of the network is answered or rejected. *)
Definition always_answers (net : network) : Prop :=
  forall rq, net rq <> Silent.

End Readings.
Import Readings.

(* ------------------------------------------------------------------ *)
(** * Properties *)
(* ------------------------------------------------------------------ *)

Unset Implicit Arguments.

(** ** Strings *)

Lemma str_eqb_eq (a b : jsstring) : str_eqb a b = true <-> a = b.
Proof.
  revert b; induction a as [|x a IH]; intros [|y b]; simpl; split;
    try congruence; try reflexivity.
  - intros H. apply andb_true_iff in H as [Hx Hr].
    apply N.eqb_eq in Hx. apply IH in Hr. congruence.
  - intros H. injection H as -> ->.
    rewrite N.eqb_refl. simpl. apply IH. reflexivity.
Qed.

Lemma is_empty_true (s : jsstring) : is_empty s = true <-> s = [].
Proof. destruct s; simpl; split; congruence. Qed.

Lemma is_empty_false (s : jsstring) : is_empty s = false <-> s <> [].
Proof. destruct s; simpl; split; congruence. Qed.

(** ** The Attribute Extractor *)

Import Attributes.

Lemma get_opt_prop (v : value) (k : jsstring) : get_opt v k = Normal (prop v k).
Proof. destruct v; reflexivity. Qed.

Lemma trait_of_entry_trait (a : value) : trait_of a = Normal (entry_trait a).
Proof.
  unfold trait_of, entry_trait, or_else. rewrite get_opt_prop. cbn [cbind].
  destruct (truthy (prop a (lit "trait_type"))); [reflexivity|].
  apply get_opt_prop.
Qed.

Lemma find_c_find (key : jsstring) (items : list value) :
  find_c (fun a => cbind (trait_of a) (fun t => Normal (strict_eq_str t key))) items
  = Normal (match find (entry_matches key) items with
            | Some a => a
            | None => VUndefined
            end).
Proof.
  induction items as [|a r IH]; [reflexivity|].
  cbn [find_c find]. rewrite trait_of_entry_trait. cbn [cbind].
  unfold entry_matches at 1.
  destruct (strict_eq_str (entry_trait a) key); [reflexivity|exact IH].
Qed.

Lemma getAttr_reading (data : value) (key : jsstring) :
  getAttr data key = Normal (first_matching_value data key).
Proof.
  unfold getAttr, first_matching_value, attributes_list.
  rewrite get_opt_prop. cbn [cbind].
  destruct (prop data (lit "attributes")); try reflexivity.
  rewrite find_c_find. cbn [cbind].
  rewrite get_opt_prop. cbn [cbind].
  destruct (find (entry_matches key) items); reflexivity.
Qed.

(** C7. For every metadata value and every label, [getAttr] completes
    normally (it never throws) with the value of the first entry of
    [attributes] whose trait type, under the [trait_type] or the
    [traitType] spelling, is exactly the label; it gives [null] when
    [attributes] is missing or is no list, and when no entry matches.  On
    the metadata of the scenario the label GPA gives 3.8 and the label
    Major gives [null]. *)
Theorem getAttr_first_match_or_absent :
  forall (data : value) (key : jsstring),
    getAttr data key = Normal (first_matching_value data key)
    /\ (attributes_list data = None -> getAttr data key = Normal VNull)
    /\ (forall items,
          attributes_list data = Some items ->
          find (entry_matches key) items = None ->
          getAttr data key = Normal VNull)
    /\ (forall items pre a post,
          attributes_list data = Some items ->
          items = pre ++ a :: post ->
          (forall b, In b pre -> entry_matches key b = false) ->
          entry_matches key a = true ->
          getAttr data key = Normal (coalesce (prop a (lit "value")) VNull))
    /\ getAttr bsc_physics (lit "GPA") = Normal (VStr (lit "3.8"))
    /\ getAttr bsc_physics (lit "Major") = Normal VNull.
Proof.
  intros data key. rewrite getAttr_reading. unfold first_matching_value.
  repeat split.
  - intros ->. reflexivity.
  - intros items -> ->. reflexivity.
  - intros items pre a post -> -> Hpre Ha.
    assert (Hf : find (entry_matches key) (pre ++ a :: post) = Some a).
    { clear -Hpre Ha. induction pre as [|b pre IH]; simpl.
      - rewrite Ha. reflexivity.
      - rewrite (Hpre b (or_introl eq_refl)). apply IH.
        intros c Hc. apply Hpre. right. exact Hc. }
    rewrite Hf. reflexivity.
Qed.

Lemma getAttr_first_match_or_absent_witness :
  getAttr bsc_physics (lit "GPA")
  = Normal (coalesce (prop (VObj [(lit "trait_type", VStr (lit "GPA"));
                                  (lit "value", VStr (lit "3.8"))])
                           (lit "value")) VNull).
Proof.
  refine (proj1 (proj2 (proj2 (proj2
            (getAttr_first_match_or_absent bsc_physics (lit "GPA")))))
          _ [] _ [] _ _ _ _).
  - reflexivity.
  - reflexivity.
  - intros b [].
  - reflexivity.
Defined.

(** C8. [formatDate] gives the em-dash placeholder for a missing or
    empty input, the locale-formatted date for an input that parses as
    a date, and the input itself, unchanged, for one that does not. *)
Theorem formatDate_placeholder_date_or_raw :
  forall (Date_time : jsstring -> option Z)
         (toLocaleDateString : Z -> jsstring) (d : option jsstring),
    ((d = None \/ d = Some []) ->
       formatDate Date_time toLocaleDateString d = em_dash)
    /\ (forall s t, d = Some s -> s <> [] -> Date_time s = Some t ->
          formatDate Date_time toLocaleDateString d = toLocaleDateString t)
    /\ (forall s, d = Some s -> s <> [] -> Date_time s = None ->
          formatDate Date_time toLocaleDateString d = s).
Proof.
  intros Date_time toLocale d. repeat split.
  - intros [-> | ->]; reflexivity.
  - intros s t -> Hs Ht. simpl.
    apply is_empty_false in Hs. rewrite Hs, Ht. reflexivity.
  - intros s -> Hs Ht. simpl.
    apply is_empty_false in Hs. rewrite Hs, Ht. reflexivity.
Qed.

Lemma formatDate_placeholder_date_or_raw_witness :
  formatDate Date_time_sample toLocaleDateString_sample None = em_dash
  /\ formatDate Date_time_sample toLocaleDateString_sample
       (Some (lit "2024-01-15")) = lit "1/15/2024"
  /\ formatDate Date_time_sample toLocaleDateString_sample
       (Some (lit "sometime in May")) = lit "sometime in May".
Proof.
  split; [|split].
  - apply (proj1 (formatDate_placeholder_date_or_raw
                    Date_time_sample toLocaleDateString_sample None)).
    left. reflexivity.
  - apply (proj1 (proj2 (formatDate_placeholder_date_or_raw
                    Date_time_sample toLocaleDateString_sample
                    (Some (lit "2024-01-15"))))
             (lit "2024-01-15") 1705276800000%Z).
    + reflexivity.
    + discriminate.
    + reflexivity.
  - apply (proj2 (proj2 (formatDate_placeholder_date_or_raw
                    Date_time_sample toLocaleDateString_sample
                    (Some (lit "sometime in May"))))
             (lit "sometime in May")).
    + reflexivity.
    + discriminate.
    + reflexivity.
Defined.

(** ** The verification-status mapping *)

Import Status.

Lemma array_includes_In (names : list jsstring) (s : jsstring) :
  array_includes names s = true <-> In s names.
Proof.
  unfold array_includes. rewrite existsb_exists. split.
  - intros [n [Hin Heq]]. apply str_eqb_eq in Heq. subst. exact Hin.
  - intros Hin. exists s. split; [exact Hin | apply str_eqb_eq; reflexivity].
Qed.

Lemma array_includes_not_In (names : list jsstring) (s : jsstring) :
  ~ In s names -> array_includes names s = false.
Proof.
  intros H. destruct (array_includes names s) eqn:E; [|reflexivity].
  apply array_includes_In in E. contradiction.
Qed.

Lemma get_truthy (v : value) (k : jsstring) :
  truthy v = true -> get v k = Normal (prop v k).
Proof. destruct v; simpl; intros H; try discriminate; reflexivity. Qed.

Lemma or_else_object_truthy (v : value) : truthy (or_else v (VObj [])) = true.
Proof. unfold or_else. destruct (truthy v) eqn:E; [exact E | reflexivity]. Qed.

Lemma rawStatus_reading (toString : value -> completion jsstring)
  (toUpperCase : jsstring -> jsstring) (res_data : value) :
  rawStatus toString toUpperCase res_data
  = cbind (match status_value res_data with
           | VStr x => Normal x
           | _ => toString (status_value res_data)
           end)
      (fun str => Normal (toUpperCase str)).
Proof.
  unfold rawStatus, status_value. cbv zeta.
  set (data := or_else res_data (VObj [])).
  assert (Hd : truthy data = true) by apply or_else_object_truthy.
  rewrite (get_truthy data _ Hd). cbn [cbind].
  unfold or_else. destruct (truthy (prop data (lit "status"))) eqn:E.
  - cbn [cbind]. rewrite ?E. reflexivity.
  - rewrite (get_truthy data _ Hd). cbn [cbind]. reflexivity.
Qed.

(** The status computation throws exactly when the status value is no
    string and its [toString] throws. *)
Lemma credential_status_throws (toString : value -> completion jsstring)
  (toUpperCase : jsstring -> jsstring) (res_data : value) :
  credential_status toString toUpperCase res_data = Throw <->
  (forall x, status_value res_data <> VStr x)
  /\ toString (status_value res_data) = Throw.
Proof.
  unfold credential_status. rewrite rawStatus_reading.
  destruct (status_value res_data) as [| | b | q | x | items | fields] eqn:Hv;
    cbn [cbind].
  5:{ split; [intros H; discriminate H|].
      intros [H _]. exfalso. exact (H x eq_refl). }
  all: destruct (toString _) eqn:Hs; cbn [cbind]; split.
  all: try (intros H; discriminate H).
  all: try (intros [_ H]; discriminate H).
  all: try (intros _; reflexivity).
  all: intros _; split; [intros x' Hx'; discriminate Hx' | reflexivity].
Qed.

(** C9. In the status mapping of the two pages, an upstream response
    whose upper-cased status (or result) string is in none of the three
    lists of recognised names is mapped to VERIFIED.  The string is
    computed for every response whose status value is a string or is
    missing; it is not computed, and no status is mapped, exactly when
    the status value is no string and its [toString] throws. *)
Theorem unknown_status_defaults_to_verified :
  forall (toString : value -> completion jsstring)
         (toUpperCase : jsstring -> jsstring) (res_data : value),
    (forall raw,
        rawStatus toString toUpperCase res_data = Normal raw ->
        ~ In raw verified_names ->
        ~ In raw not_found_names ->
        ~ In raw tampered_names ->
        credential_status toString toUpperCase res_data = Normal VERIFIED)
    /\ (forall x,
          status_value res_data = VStr x ->
          rawStatus toString toUpperCase res_data = Normal (toUpperCase x))
    /\ (credential_status toString toUpperCase res_data = Throw <->
        (forall x, status_value res_data <> VStr x)
        /\ toString (status_value res_data) = Throw).
Proof.
  intros toString toUpperCase res_data.
  repeat match goal with |- _ /\ _ => split end.
  - intros raw Hraw Hv Hn Ht. unfold credential_status. rewrite Hraw.
    cbn [cbind]. unfold map_status.
    rewrite (array_includes_not_In _ _ Hv), (array_includes_not_In _ _ Hn),
      (array_includes_not_In _ _ Ht).
    reflexivity.
  - intros x Hx. rewrite rawStatus_reading, Hx. reflexivity.
  - apply credential_status_throws.
Qed.

Lemma unknown_status_defaults_to_verified_witness :
  credential_status String_conversion toUpperCase_ascii
    (VObj [(lit "status", VStr (lit "pending"))]) = Normal VERIFIED.
Proof.
  apply (proj1 (unknown_status_defaults_to_verified String_conversion
                  toUpperCase_ascii (VObj [(lit "status", VStr (lit "pending"))]))
           (lit "PENDING")).
  - reflexivity.
  - simpl. intros H. repeat destruct H as [H|H]; try discriminate H; exact H.
  - simpl. intros H. repeat destruct H as [H|H]; try discriminate H; exact H.
  - simpl. intros H. repeat destruct H as [H|H]; try discriminate H; exact H.
Defined.

(** On a response whose status is an object with a key [toString], as
    [JSON.parse] can give one, the status computation throws. *)
Lemma status_conversion_can_throw :
  credential_status String_conversion toUpperCase_ascii
    (VObj [(lit "status", VObj [(lit "toString", VNum 1)])]) = Throw.
Proof. reflexivity. Qed.

(** ** The Link Normalizer *)

Lemma includes_here (p s : jsstring) :
  startsWith p s = true -> includes p s = true.
Proof. destruct s; simpl; intros ->; reflexivity. Qed.

Lemma includes_skipn (p : jsstring) (n : nat) (s : jsstring) :
  includes p (skipn n s) = true -> includes p s = true.
Proof.
  revert s; induction n as [|n IH]; intros s; [trivial|].
  destruct s as [|c r]; [trivial|].
  cbn [skipn]. intros H. apply IH in H.
  cbn [includes]. rewrite H. apply orb_true_r.
Qed.

Lemma includes_strip_prefix_i (p q s : jsstring) :
  includes p (strip_prefix_i q s) = true -> includes p s = true.
Proof.
  unfold strip_prefix_i. destruct (test_prefix_i q s); [|trivial].
  apply includes_skipn.
Qed.

Lemma includes_strip_ipfs_path (p s : jsstring) :
  includes p (strip_ipfs_path s) = true -> includes p s = true.
Proof.
  unfold strip_ipfs_path. destruct (test_prefix_i (lit "/ipfs/") s).
  - apply includes_skipn.
  - apply includes_strip_prefix_i.
Qed.

Lemma scheme_tail_includes (s : jsstring) :
  scheme_tail s = true -> includes (lit "://") s = true.
Proof.
  induction s as [|c r IH]; intros H.
  - discriminate H.
  - cbn [scheme_tail] in H. apply orb_true_iff in H as [H|H].
    + apply includes_here. exact H.
    + apply andb_true_iff in H as [_ H]. apply IH in H.
      cbn [includes]. rewrite H. apply orb_true_r.
Qed.

Lemma protocol_prefix_includes (s : jsstring) :
  protocol_prefix s = true -> includes (lit "://") s = true.
Proof.
  destruct s as [|c r]; [discriminate|].
  unfold protocol_prefix. intros H. apply andb_true_iff in H as [_ H].
  apply scheme_tail_includes in H.
  cbn [includes]. rewrite H. apply orb_true_r.
Qed.

Lemma normalize_of_string (String_ : value -> completion jsstring)
  (raw : jsstring) :
  normalize String_ (VStr raw) = Normal (normalize_string raw).
Proof. reflexivity. Qed.

(** The claim C4 as it is written fails: a second [ipfs://] and a scheme
    that is not an IPFS one both stay in an output of class raw-cid. *)
Lemma normalize_raw_cid_keeps_a_scheme :
  ~ (forall raw out : jsstring,
       normalize String_conversion (VStr raw) = Normal out ->
       raw_cid out = true ->
       protocol_prefix out = false)
  /\ normalize String_conversion (VStr (lit "ipfs://ipfs://QmX"))
     = Normal (lit "ipfs://QmX")
  /\ normalize String_conversion (VStr (lit "ftp://host/file"))
     = Normal (lit "ftp://host/file").
Proof.
  split; [|split; reflexivity].
  intros H.
  specialize (H (lit "ipfs://ipfs://QmX") (lit "ipfs://QmX") eq_refl eq_refl).
  discriminate H.
Qed.

(** C4 (amended). For every raw string input the normalizer returns a
    string, by applying its rules in order: trim; an empty string gives
    the empty string; [ar://] is rewritten to the Arweave HTTPS gateway;
    http(s) passes through unchanged; otherwise one leading [ipfs://],
    then one leading [/ipfs/] or [ipfs/], then one leading [ipfs/] are
    removed, each at most once and whatever the case of the letters.  An
    output of class raw-cid has no protocol prefix whenever the trimmed
    input has no [://] apart from one leading [ipfs://]. *)
Theorem normalize_rules_in_order :
  forall (String_ : value -> completion jsstring) (raw : jsstring),
    let t := trim raw in
    exists out,
      normalize String_ (VStr raw) = Normal out
      /\ (t = [] -> out = [])
      /\ (t <> [] -> is_ar t = true ->
          out = lit "https://arweave.net/" ++ skipn 5 t)
      /\ (t <> [] -> is_ar t = false -> is_http t = true -> out = t)
      /\ (t <> [] -> is_ar t = false -> is_http t = false ->
          out = strip_prefix_i (lit "ipfs/")
                  (strip_ipfs_path (strip_prefix_i (lit "ipfs://") t)))
      /\ (raw_cid out = true ->
          includes (lit "://") (strip_prefix_i (lit "ipfs://") t) = false ->
          protocol_prefix out = false /\ includes (lit "://") out = false).
Proof.
  intros String_ raw t. exists (normalize_string raw).
  split; [apply normalize_of_string|].
  set (out := normalize_string raw).
  assert (Hout : out = normalize_string raw) by reflexivity.
  clearbody out.
  unfold normalize_string in Hout. fold t in Hout.
  repeat match goal with |- _ /\ _ => split end.
  - intros Ht. rewrite Hout, Ht. reflexivity.
  - intros Ht Har. apply is_empty_false in Ht. rewrite Hout, Ht, Har. reflexivity.
  - intros Ht Har Hh. apply is_empty_false in Ht.
    rewrite Hout, Ht, Har, Hh. reflexivity.
  - intros Ht Har Hh. apply is_empty_false in Ht.
    rewrite Hout, Ht, Har, Hh. reflexivity.
  - intros Hcid Hno.
    assert (Hinc : includes (lit "://") out = false).
    { unfold raw_cid in Hcid. apply andb_true_iff in Hcid as [Hne Hnh].
      apply negb_true_iff in Hne, Hnh.
      destruct (is_empty t) eqn:Et.
      { rewrite Hout in Hne. discriminate Hne. }
      destruct (is_ar t) eqn:Ea.
      { rewrite Hout in Hnh. discriminate Hnh. }
      destruct (is_http t) eqn:Eh.
      { rewrite Hout in Hnh. congruence. }
      destruct (includes (lit "://") out) eqn:E; [|reflexivity].
      rewrite Hout in E.
      apply includes_strip_prefix_i, includes_strip_ipfs_path in E.
      congruence. }
    split; [|exact Hinc].
    destruct (protocol_prefix out) eqn:E; [|reflexivity].
    apply protocol_prefix_includes in E. congruence.
Qed.

Lemma normalize_rules_in_order_witness :
  exists out,
    normalize String_conversion (VStr (lit "  ipfs://QmX/a.json ")) = Normal out
    /\ protocol_prefix out = false.
Proof.
  destruct (normalize_rules_in_order String_conversion
              (lit "  ipfs://QmX/a.json "))
    as [out [Hout [_ [_ [_ [_ Hfree]]]]]].
  exists out. split; [exact Hout|].
  assert (Hval : out = lit "QmX/a.json").
  { rewrite normalize_of_string in Hout. injection Hout as <-. reflexivity. }
  subst out. apply Hfree; reflexivity.
Defined.

(** ** The Candidate Resolver *)

Lemma split_on_no_separator (sep : N) (p : jsstring) :
  ~ In sep p -> split_on sep p = [p].
Proof.
  induction p as [|c p IH]; intros Hp; [reflexivity|].
  cbn [split_on].
  destruct (N.eqb_spec c sep) as [->|Hne].
  - exfalso. apply Hp. left. reflexivity.
  - rewrite IH; [reflexivity|]. intros Hin. apply Hp. right. exact Hin.
Qed.

Lemma split_on_piece (sep : N) (p s : jsstring) :
  ~ In sep p -> split_on sep (p ++ sep :: s) = p :: split_on sep s.
Proof.
  induction p as [|c p IH]; intros Hp.
  - cbn [app split_on]. rewrite N.eqb_refl. reflexivity.
  - cbn [app split_on].
    destruct (N.eqb_spec c sep) as [->|Hne].
    + exfalso. apply Hp. left. reflexivity.
    + rewrite IH; [reflexivity|]. intros Hin. apply Hp. right. exact Hin.
Qed.

Lemma split_on_join (sep : N) (p : jsstring) (ps : list jsstring) :
  Forall (fun q => ~ In sep q) (p :: ps) ->
  split_on sep (join [sep] (p :: ps)) = p :: ps.
Proof.
  revert p; induction ps as [|q ps IH]; intros p Hall.
  - apply split_on_no_separator. inversion Hall; assumption.
  - inversion Hall as [|? ? Hp Hrest]; subst.
    change (join [sep] (p :: q :: ps)) with (p ++ sep :: join [sep] (q :: ps)).
    rewrite split_on_piece by exact Hp.
    rewrite IH by exact Hrest. reflexivity.
Qed.

Lemma filter_all (A : Type) (f : A -> bool) (l : list A) :
  Forall (fun x => f x = true) l -> filter f l = l.
Proof.
  induction 1 as [|x l Hx _ IH]; [reflexivity|].
  cbn [filter]. rewrite Hx, IH. reflexivity.
Qed.

Lemma slash_join_flat_map (q : jsstring) (ps : list jsstring) :
  lit "/" ++ join (lit "/") (q :: ps) = flat_map (fun p => slash :: p) (q :: ps).
Proof.
  revert q; induction ps as [|r ps IH]; intros q.
  - cbn. rewrite app_nil_r. reflexivity.
  - change (join (lit "/") (q :: r :: ps))
      with (q ++ lit "/" ++ join (lit "/") (r :: ps)).
    rewrite IH. cbn [flat_map]. reflexivity.
Qed.

(** The split of a pointer made of an identifier and path segments. *)
Lemma cid_and_path_of_segments (cid : jsstring) (segs : list jsstring) :
  cid <> [] -> ~ In slash cid ->
  Forall (fun p => p <> [] /\ ~ In slash p) segs ->
  cid_and_path (join (lit "/") (cid :: segs))
  = (cid, flat_map (fun p => slash :: p) segs).
Proof.
  intros Hne Hns Hsegs.
  assert (Hparts : filter (fun p => negb (is_empty p))
                     (split_on slash (join (lit "/") (cid :: segs)))
                   = cid :: segs).
  { change (lit "/") with [slash]. rewrite split_on_join.
    2:{ constructor; [exact Hns|].
        eapply Forall_impl; [|exact Hsegs]. intros q [_ Hq]. exact Hq. }
    apply filter_all. constructor.
    - destruct cid; [contradiction|reflexivity].
    - eapply Forall_impl; [|exact Hsegs].
      intros q [Hq _]. destruct q; [contradiction|reflexivity]. }
  unfold cid_and_path. rewrite Hparts.
  cbn [hd tl]. destruct segs as [|q ps]; [reflexivity|].
  rewrite slash_join_flat_map. reflexivity.
Qed.

(** The claim C5 as it is written fails for the list that [fetchIpfs]
    builds: it has no subdomain-style URL. *)
Lemma page_candidates_lack_subdomain_style :
  let id := lit "bafyExampleCID1234567890123456789012345" in
  normalize String_conversion (VStr id) = Normal id
  /\ raw_cid id = true
  /\ ~ (exists u, In u (pageCandidates id)
                  /\ startsWith (lit "https://" ++ id ++ lit ".ipfs.") u = true).
Proof.
  cbv zeta. split; [reflexivity|]. split; [reflexivity|].
  intros [u [Hin Hu]].
  assert (H : existsb
                (startsWith (lit "https://"
                             ++ lit "bafyExampleCID1234567890123456789012345"
                             ++ lit ".ipfs."))
                (pageCandidates (lit "bafyExampleCID1234567890123456789012345"))
              = true).
  { apply existsb_exists. exists u. split; assumption. }
  vm_compute in H. discriminate H.
Qed.

(** C5 (amended). For a pointer of scheme raw-cid, [buildCandidates] of
    the proxy route gives, in this order, the five path-style URLs
    (cloudflare-ipfs.com, ipfs.io, nftstorage.link, dweb.link,
    gateway.pinata.cloud) and then the two subdomain-style URLs
    (nftstorage.link, dweb.link); the list that [fetchIpfs] builds for
    its own fallback is the five path-style URLs alone, in the same
    order.  Both split the pointer on [/] into a leading identifier and
    the remaining path: for an identifier followed by path segments
    these are the identifier and the segments, each behind a [/]. *)
Theorem candidates_in_gateway_order :
  forall src : jsstring,
    is_http src = false ->
    let cid := fst (cid_and_path src) in
    let path := snd (cid_and_path src) in
    buildCandidates src =
      [ lit "https://cloudflare-ipfs.com/ipfs/" ++ cid ++ path;
        lit "https://ipfs.io/ipfs/" ++ cid ++ path;
        lit "https://nftstorage.link/ipfs/" ++ cid ++ path;
        lit "https://dweb.link/ipfs/" ++ cid ++ path;
        lit "https://gateway.pinata.cloud/ipfs/" ++ cid ++ path;
        lit "https://" ++ cid ++ lit ".ipfs.nftstorage.link" ++ path;
        lit "https://" ++ cid ++ lit ".ipfs.dweb.link" ++ path ]
    /\ pageCandidates src =
      [ lit "https://cloudflare-ipfs.com/ipfs/" ++ cid ++ path;
        lit "https://ipfs.io/ipfs/" ++ cid ++ path;
        lit "https://nftstorage.link/ipfs/" ++ cid ++ path;
        lit "https://dweb.link/ipfs/" ++ cid ++ path;
        lit "https://gateway.pinata.cloud/ipfs/" ++ cid ++ path ]
    /\ (forall (id : jsstring) (segs : list jsstring),
          id <> [] -> ~ In slash id ->
          Forall (fun p => p <> [] /\ ~ In slash p) segs ->
          src = join (lit "/") (id :: segs) ->
          cid = id /\ path = flat_map (fun p => slash :: p) segs).
Proof.
  intros src Hhttp cid path.
  unfold buildCandidates, pageCandidates. rewrite Hhttp.
  unfold cid, path. destruct (cid_and_path src) as [c p] eqn:E. cbn [fst snd].
  split; [reflexivity|]. split; [reflexivity|].
  intros id segs Hne Hns Hsegs ->.
  rewrite (cid_and_path_of_segments id segs Hne Hns Hsegs) in E.
  injection E as <- <-. split; reflexivity.
Qed.

Lemma candidates_in_gateway_order_witness :
  buildCandidates (lit "QmX/meta/1.json") =
    [ lit "https://cloudflare-ipfs.com/ipfs/QmX/meta/1.json";
      lit "https://ipfs.io/ipfs/QmX/meta/1.json";
      lit "https://nftstorage.link/ipfs/QmX/meta/1.json";
      lit "https://dweb.link/ipfs/QmX/meta/1.json";
      lit "https://gateway.pinata.cloud/ipfs/QmX/meta/1.json";
      lit "https://QmX.ipfs.nftstorage.link/meta/1.json";
      lit "https://QmX.ipfs.dweb.link/meta/1.json" ]
  /\ fst (cid_and_path (lit "QmX/meta/1.json")) = lit "QmX"
  /\ snd (cid_and_path (lit "QmX/meta/1.json")) = lit "/meta/1.json".
Proof.
  pose proof (candidates_in_gateway_order (lit "QmX/meta/1.json") eq_refl)
    as [Hroute [_ Hsplit]].
  split; [exact Hroute|].
  apply (Hsplit (lit "QmX") [lit "meta"; lit "1.json"]).
  - discriminate.
  - vm_compute. intros H. repeat destruct H as [H|H]; try discriminate H; exact H.
  - repeat constructor; try discriminate;
      vm_compute; intros H; repeat destruct H as [H|H]; try discriminate H; exact H.
  - reflexivity.
Defined.

(** ** The pointer extraction pass *)

Import Extract.

Lemma key_loop_ext (sub sub' : jsstring -> option (option jsstring))
  (ks : list jsstring) :
  (forall k, sub k = sub' k) -> key_loop sub ks = key_loop sub' ks.
Proof.
  intros H. induction ks as [|k r IH]; [reflexivity|].
  cbn [key_loop]. rewrite H, IH. reflexivity.
Qed.

(** The object case of [extractIpfsLink], as the source has it: the loop
    over [keys] with a recursive call per key present, then the fallback. *)
Lemma extractIpfsLink_object (fields : list (jsstring * value)) :
  extractIpfsLink (VObj fields)
  = match key_loop (key_result fields) keys with
    | Some got => Some got
    | None => fallback fields
    end.
Proof.
  cbn [extractIpfsLink].
  erewrite key_loop_ext; [reflexivity|].
  intros k. unfold key_result.
  induction fields as [|[k' v] r IH]; [reflexivity|].
  cbn [assoc lookup option_map]. destruct (str_eqb k' k); [reflexivity|exact IH].
Qed.

Lemma key_loop_truthy (sub : jsstring -> option (option jsstring))
  (ks : list jsstring) (got : jsstring) :
  key_loop sub ks = Some got -> got <> [].
Proof.
  induction ks as [|k r IH]; [discriminate|].
  cbn [key_loop]. destruct (sub k) as [[g|]|]; try exact IH.
  destruct g as [|c g']; cbn [got_truthy]; [exact IH|].
  intros H. injection H as <-. discriminate.
Qed.

Lemma key_loop_first (sub : jsstring -> option (option jsstring))
  (pre post : list jsstring) (k : jsstring) (got : option jsstring) :
  (forall k', In k' pre ->
     match sub k' with Some g => got_truthy g = false | None => True end) ->
  sub k = Some got -> got_truthy got = true ->
  key_loop sub (pre ++ k :: post) = got.
Proof.
  intros Hpre Hk Hgot. induction pre as [|p pre IH].
  - cbn [app key_loop]. rewrite Hk, Hgot. reflexivity.
  - cbn [app key_loop].
    pose proof (Hpre p (or_introl eq_refl)) as Hp.
    destruct (sub p) as [g|].
    + rewrite Hp. apply IH. intros k' Hin. apply Hpre. right. exact Hin.
    + apply IH. intros k' Hin. apply Hpre. right. exact Hin.
Qed.

Lemma key_loop_finds (sub : jsstring -> option (option jsstring))
  (ks : list jsstring) (k : jsstring) (g : option jsstring) :
  In k ks -> sub k = Some g -> got_truthy g = true ->
  exists got, key_loop sub ks = Some got.
Proof.
  intros Hin Hk Hg. induction ks as [|k0 r IH]; [contradiction|].
  cbn [key_loop]. destruct Hin as [->|Hin].
  - rewrite Hk, Hg. destruct g as [got|]; [|discriminate Hg].
    exists got. reflexivity.
  - destruct (sub k0) as [[[|c g0]|]|]; cbn [got_truthy]; auto.
    eexists. reflexivity.
Qed.

Lemma extract_string_nonblank (s : jsstring) :
  trim s <> [] ->
  extractIpfsLink (VStr s) = Some (trim s)
  /\ got_truthy (Some (trim s)) = true.
Proof.
  intros H. cbn [extractIpfsLink].
  destruct s as [|c r]; [exfalso; apply H; reflexivity|].
  split; [reflexivity|].
  destruct (trim (c :: r)); [contradiction|reflexivity].
Qed.

Lemma key_loop_none (sub : jsstring -> option (option jsstring))
  (ks : list jsstring) (k : jsstring) (g : option jsstring) :
  key_loop sub ks = None -> In k ks -> sub k = Some g -> got_truthy g = false.
Proof.
  induction ks as [|k0 r IH]; [contradiction|].
  cbn [key_loop]. intros Hloop [->|Hin] Hk.
  - rewrite Hk in Hloop. destruct (got_truthy g) eqn:E; [|reflexivity].
    destruct g as [[|c g]|]; discriminate.
  - destruct (sub k0) as [g0|]; [|exact (IH Hloop Hin Hk)].
    destruct (got_truthy g0) eqn:E; [|exact (IH Hloop Hin Hk)].
    destruct g0 as [[|c g0]|]; discriminate.
Qed.

Lemma white_space_range (c : N) :
  is_white_space c = true -> (c <= 32 \/ 160 <= c)%N.
Proof.
  unfold is_white_space, in_range. intros H.
  rewrite ?orb_true_iff, ?andb_true_iff, ?N.eqb_eq, ?N.leb_le in H. lia.
Qed.

Lemma white_space_no_letter (c x : N) :
  is_white_space c = true -> (65 <= x <= 122)%N -> N.eqb (canon x) (canon c) = false.
Proof.
  intros Hc Hx. apply white_space_range in Hc. apply N.eqb_neq.
  unfold canon, in_range.
  destruct (N.leb_spec 97 x), (N.leb_spec x 122), (N.leb_spec 97 c),
    (N.leb_spec c 122); cbn [andb]; lia.
Qed.

Lemma trimStart_ends_with (l : jsstring) (c : N) :
  is_white_space c = false -> trimStart (l ++ [c]) <> [].
Proof.
  intros Hc. induction l as [|x l IH]; cbn [app trimStart].
  - rewrite Hc. discriminate.
  - destruct (is_white_space x); [exact IH | discriminate].
Qed.

Lemma trim_blank_head (c : N) (r : jsstring) :
  trim (c :: r) = [] -> is_white_space c = true.
Proof.
  unfold trim. cbn [trimStart].
  destruct (is_white_space c) eqn:Hc; [reflexivity|].
  unfold trimEnd. cbn [rev]. intros H.
  apply (f_equal (@rev N)) in H. rewrite rev_involutive in H. cbn [rev] in H.
  exfalso. exact (trimStart_ends_with (rev r) c Hc H).
Qed.

Lemma blank_fails_pattern (p : jsstring) :
  p <> [] -> trim p = [] ->
  isStringCid p = false /\ startsWith (lit "ipfs://") p = false.
Proof.
  intros Hp Ht. destruct p as [|c r]; [contradiction|].
  apply trim_blank_head in Ht.
  assert (HQ : N.eqb (canon 81) (canon c) = false)
    by (apply white_space_no_letter; [exact Ht | lia]).
  assert (Hb : N.eqb (canon 98) (canon c) = false)
    by (apply white_space_no_letter; [exact Ht | lia]).
  assert (H1 : test_prefix_i (lit "Qm") (c :: r) = false).
  { change (lit "Qm") with [81; 109]%N. cbn [test_prefix_i].
    rewrite HQ. reflexivity. }
  assert (H2 : test_prefix_i (lit "bafy") (c :: r) = false).
  { change (lit "bafy") with [98; 97; 102; 121]%N. cbn [test_prefix_i].
    rewrite Hb. reflexivity. }
  split.
  - unfold isStringCid, prefix_then_class. rewrite H1, H2. reflexivity.
  - change (lit "ipfs://") with [105; 112; 102; 115; 58; 47; 47]%N.
    cbn [startsWith]. apply white_space_range in Ht.
    destruct (N.eqb_spec 105 c) as [<-|]; [lia | reflexivity].
Qed.

Lemma first_truthy_string (vs : list value) (p : jsstring) :
  match filter truthy vs with x :: _ => x | [] => VUndefined end = VStr p ->
  In (VStr p) vs /\ p <> [].
Proof.
  induction vs as [|v vs IH]; cbn [filter]; [discriminate|].
  destruct (truthy v) eqn:E.
  - intros ->. split; [left; reflexivity|].
    destruct p; [discriminate E | discriminate].
  - intros H. destruct (IH H) as [Hin Hp]. split; [right; exact Hin | exact Hp].
Qed.

Lemma possible_is_a_field (fields : list (jsstring * value)) (p : jsstring) :
  possible fields = VStr p ->
  p <> []
  /\ exists k, In k keys /\ lookup k fields = Some (VStr p).
Proof.
  unfold possible. intros H. apply first_truthy_string in H as [Hin Hp].
  split; [exact Hp|].
  assert (Hfield : forall k, In k keys ->
            match lookup k fields with Some x => x | None => VUndefined end
            = VStr p ->
            exists k', In k' keys /\ lookup k' fields = Some (VStr p)).
  { intros k Hk Hv. exists k. split; [exact Hk|].
    destruct (lookup k fields); [congruence | discriminate Hv]. }
  destruct Hin as [Hv|[Hv|[Hv|[]]]].
  - apply (Hfield (lit "cid")); [vm_compute; tauto | exact Hv].
  - apply (Hfield (lit "hash")); [vm_compute; tauto | exact Hv].
  - apply (Hfield (lit "/")); [vm_compute; tauto | exact Hv].
Qed.

(** The fallback of the object case has no result of its own: a field
    that would pass its test has been returned by the loop over [keys]. *)
Lemma fallback_adds_nothing (fields : list (jsstring * value)) :
  key_loop (key_result fields) keys = None -> fallback fields = None.
Proof.
  intros Hloop. unfold fallback.
  destruct (possible fields) as [| | | |p| |] eqn:Ep; try reflexivity.
  destruct (possible_is_a_field fields p Ep) as [Hp [k [Hin Hk]]].
  assert (Hblank : trim p = []).
  { assert (Hres : key_result fields k = Some (Some (trim p))).
    { unfold key_result. rewrite Hk. cbn [option_map extractIpfsLink].
      destruct p; [contradiction | reflexivity]. }
    pose proof (key_loop_none _ keys k _ Hloop Hin Hres) as Hg.
    destruct (trim p); [reflexivity | discriminate Hg]. }
  destruct (blank_fails_pattern p Hp Hblank) as [-> ->]. reflexivity.
Qed.

Lemma extractIpfsLink_object_is_key_search (fields : list (jsstring * value)) :
  extractIpfsLink (VObj fields) = key_loop (key_result fields) keys.
Proof.
  rewrite extractIpfsLink_object.
  destruct (key_loop (key_result fields) keys) eqn:E; [reflexivity|].
  apply fallback_adds_nothing. exact E.
Qed.

(** The claim C3 as it is written fails: a string under [cid] that is no
    content identifier and has no [ipfs://] prefix is returned. *)
Lemma extract_returns_unchecked_cid :
  extractIpfsLink (VObj [(lit "cid", VStr (lit "hello"))]) = Some (lit "hello")
  /\ isStringCid (lit "hello") = false
  /\ startsWith (lit "ipfs://") (lit "hello") = false.
Proof. repeat split. Qed.

(** C3 (amended). For every object input, the search over the listed
    keys, to which [cid] and [hash] belong, comes first: a string under
    [cid] or [hash] that is not blank makes the pass return a pointer,
    and that pointer is the trimmed string itself when no key listed
    before gives one, whatever the form of the string.  The test for a
    known content-identifier pattern or an [ipfs://] prefix belongs to
    the fallback after that search: what the fallback returns passes the
    test, and the result for an object is always that of the search. *)
Theorem extract_cid_or_hash_unchecked :
  forall (fields : list (jsstring * value)) (k s : jsstring),
    k = lit "cid" \/ k = lit "hash" ->
    lookup k fields = Some (VStr s) ->
    trim s <> [] ->
    (exists got, extractIpfsLink (VObj fields) = Some got /\ got <> [])
    /\ (forall pre post,
          keys = pre ++ k :: post ->
          (forall k', In k' pre ->
             match key_result fields k' with
             | Some g => got_truthy g = false
             | None => True
             end) ->
          extractIpfsLink (VObj fields) = Some (trim s))
    /\ (forall p, fallback fields = Some p ->
          isStringCid p = true \/ startsWith (lit "ipfs://") p = true)
    /\ extractIpfsLink (VObj fields) = key_loop (key_result fields) keys.
Proof.
  intros fields k s Hk Hlook Hs.
  destruct (extract_string_nonblank s Hs) as [Hex Htr].
  assert (Hres : key_result fields k = Some (Some (trim s))).
  { unfold key_result. rewrite Hlook. cbn [option_map]. rewrite Hex. reflexivity. }
  assert (Hin : In k keys).
  { destruct Hk as [-> | ->]; vm_compute; tauto. }
  repeat match goal with |- _ /\ _ => split end.
  - destruct (key_loop_finds _ keys k _ Hin Hres Htr) as [got Hgot].
    exists got. rewrite extractIpfsLink_object, Hgot.
    split; [reflexivity|]. exact (key_loop_truthy _ _ _ Hgot).
  - intros pre post Hkeys Hpre.
    rewrite extractIpfsLink_object, Hkeys.
    rewrite (key_loop_first _ pre post k _ Hpre Hres Htr). reflexivity.
  - intros p. unfold fallback.
    destruct (possible fields); try discriminate.
    destruct (isStringCid s0 || startsWith (lit "ipfs://") s0) eqn:E;
      [|discriminate].
    intros H. injection H as <-. apply orb_true_iff. exact E.
  - apply extractIpfsLink_object_is_key_search.
Qed.

Lemma extract_cid_or_hash_unchecked_witness :
  extractIpfsLink
    (VObj [(lit "name", VStr (lit "BSc Physics"));
           (lit "hash", VStr (lit " not-a-cid "))])
  = Some (trim (lit " not-a-cid ")).
Proof.
  refine (proj1 (proj2
    (extract_cid_or_hash_unchecked
       [(lit "name", VStr (lit "BSc Physics"));
        (lit "hash", VStr (lit " not-a-cid "))]
       (lit "hash") (lit " not-a-cid ") _ _ _))
    (firstn 16 keys) (skipn 17 keys) _ _).
  - right. reflexivity.
  - reflexivity.
  - vm_compute. discriminate.
  - reflexivity.
  - intros k' Hin. vm_compute in Hin.
    repeat destruct Hin as [Hin|Hin]; try (subst k'; exact eq_refl || exact I);
      contradiction.
Defined.

(** ** The Fetch Pipeline of the page *)

Import Page.

Lemma requests_app (l1 l2 : list event) :
  requests (l1 ++ l2) = requests l1 ++ requests l2.
Proof. apply flat_map_app. Qed.

Lemma state_after_app (st : state) (l1 l2 : list event) :
  state_after st (l1 ++ l2) = state_after (state_after st l1) l2.
Proof. apply fold_left_app. Qed.

Lemma state_after_fetches (st : state) (rqs : list request) :
  state_after st (map Fetched rqs) = st.
Proof. induction rqs as [|rq r IH]; [reflexivity|exact IH]. Qed.

Lemma requests_fetches (rqs : list request) : requests (map Fetched rqs) = rqs.
Proof.
  induction rqs as [|rq r IH]; [reflexivity|].
  cbn [map]. change (requests (Fetched rq :: map Fetched r))
    with (rq :: requests (map Fetched r)). rewrite IH. reflexivity.
Qed.

(** Unfolds the awaited computations of a goal. *)
Ltac run_await :=
  unfold try_proxy, try_gateway, Route.try_candidate, Route.fetchWithTimeout,
    json, try_catch, bind, fetch, text, emit, ret, throw,
    of_option, of_completion in *;
  cbn [req_abort_ms proxy_request gateway_request Route.timed_request] in *.

(** Hides the test on the content type. *)
Ltac hide_content_type :=
  repeat match goal with
    | |- context [includes ?p ?ct || includes ?q ?ct] =>
        let jf := fresh "jf" in
        set (jf := includes p ct || includes q ct) in *; clearbody jf
    end.

(** Splits on every answer of the network, of the body and of the
    parser that the goal or a hypothesis looks at. *)
Ltac split_answers :=
  repeat (cbn in *;
    match goal with
    | H : context [match ?x with _ => _ end] |- _ =>
        lazymatch x with
        | context [match _ with _ => _ end] => fail
        | _ => destruct x eqn:?
        end
    | |- context [match ?x with _ => _ end] =>
        lazymatch x with
        | context [match _ with _ => _ end] => fail
        | _ => destruct x eqn:?
        end
    end);
  cbn in *.

Ltac use_props :=
  repeat match goal with
    | H : get_opt _ _ = _ |- _ =>
        rewrite get_opt_prop in H; inversion H; subst; clear H
    | H : negb ?b = true, H' : ?b = true |- _ =>
        rewrite H' in H; discriminate H
    end.

Lemma bind_ret_l (A B : Type) (a : A) (k : A -> M B) (net : network) :
  bind (ret a) k net = k a net.
Proof. unfold bind, ret. destruct (k a net). reflexivity. Qed.

Lemma bind_ext (A B : Type) (m : M A) (k k' : A -> M B) (net : network) :
  (forall a, k a net = k' a net) -> bind m k net = bind m k' net.
Proof.
  intros H. unfold bind. destruct (m net) as [log [a| |]]; try reflexivity.
  rewrite H. reflexivity.
Qed.

Section PageFacts.
Variable JSON_parse : jsstring -> option value.
Variable net : network.

Lemma prop_truthy_get (payload : value) (k k' : jsstring) :
  truthy (prop payload k) = true -> get payload k' = Normal (prop payload k').
Proof. destruct payload; simpl; intros H; try discriminate; reflexivity. Qed.

Lemma try_proxy_fails (normalized : jsstring) :
  proxy_fails JSON_parse net normalized = true ->
  try_proxy JSON_parse normalized net
  = (failed_proxy_log normalized, Ret false).
Proof.
  unfold proxy_fails, failed_proxy_log, proxy_url. intros H. run_await.
  destruct (encodeURIComponent normalized) as [q|]; [|reflexivity].
  split_answers. all: use_props; try discriminate; try reflexivity.
Qed.

Lemma try_proxy_succeeds (normalized q t : jsstring) (after : N)
  (pr : response) (payload : value) :
  encodeURIComponent normalized = Some q ->
  net (proxy_request (proxy_url q)) = Responds after pr ->
  resp_ok pr = true ->
  resp_body pr = BodyText t ->
  JSON_parse t = Some payload ->
  truthy (prop payload (lit "ok")) = true ->
  try_proxy JSON_parse normalized net
  = ([Fetched (proxy_request (proxy_url q));
      SetIpfsData (prop payload (lit "data"));
      SetIpfsResolvedUrl (or_else (prop payload (lit "resolvedUrl")) VNull);
      SetIpfsError None;
      SetIpfsLoading false], Ret true).
Proof.
  intros Hq Hnet Hok Hbody Hparse Htruthy. unfold proxy_url in *. run_await.
  rewrite Hq. cbn in *. rewrite Hnet. cbn. rewrite Hok. cbn. rewrite Hbody. cbn.
  rewrite Hparse. cbn. rewrite get_opt_prop. cbn. rewrite Htruthy. cbn.
  rewrite !(prop_truthy_get payload (lit "ok") _ Htruthy). reflexivity.
Qed.

Lemma try_proxy_requests (normalized : jsstring) :
  requests (fst (try_proxy JSON_parse normalized net))
  = requests (failed_proxy_log normalized).
Proof.
  unfold failed_proxy_log, proxy_url. run_await.
  destruct (encodeURIComponent normalized) as [q|]; [|reflexivity].
  split_answers. all: reflexivity.
Qed.

Lemma try_gateway_fails (url : jsstring) :
  gateway_fails JSON_parse net url = true ->
  try_gateway JSON_parse url net = ([Fetched (gateway_request url)], Ret false).
Proof.
  unfold gateway_fails, json_flavored. intros H. run_await. hide_content_type.
  split_answers. all: try discriminate; try reflexivity.
Qed.

Lemma try_gateways_all_fail (urls : list jsstring) :
  forallb (gateway_fails JSON_parse net) urls = true ->
  try_gateways JSON_parse urls net
  = (map (fun u => Fetched (gateway_request u)) urls, Ret false).
Proof.
  induction urls as [|u r IH]; intros H; [reflexivity|].
  cbn [forallb] in H. apply andb_true_iff in H as [Hu Hr].
  cbn [try_gateways]. unfold bind at 1.
  rewrite (try_gateway_fails u Hu). rewrite (IH Hr). reflexivity.
Qed.

Lemma try_gateway_requests (url : jsstring) :
  requests (fst (try_gateway JSON_parse url net)) = [gateway_request url].
Proof.
  run_await. hide_content_type. split_answers. all: reflexivity.
Qed.

Lemma try_gateways_requests (urls : list jsstring) :
  exists k,
    requests (fst (try_gateways JSON_parse urls net))
    = map gateway_request (firstn k urls).
Proof.
  induction urls as [|u r [k IH]]; [exists 0%nat; reflexivity|].
  cbn [try_gateways]. unfold bind at 1.
  pose proof (try_gateway_requests u) as Hu.
  destruct (try_gateway JSON_parse u net) as [log [success| |]]; cbn [fst] in Hu.
  - destruct success.
    + exists 1%nat. cbn. rewrite app_nil_r. exact Hu.
    + destruct (try_gateways JSON_parse r net) as [log' res] eqn:E.
      cbn [fst] in IH. exists (S k). cbn [fst firstn map].
      rewrite requests_app, Hu, IH. reflexivity.
  - exists 1%nat. exact Hu.
  - exists 1%nat. exact Hu.
Qed.
End PageFacts.

Lemma page_candidates_not_proxy (normalized u : jsstring) :
  In u (pageCandidates normalized) ->
  startsWith (lit "/api/ipfs?src=") u = false.
Proof.
  unfold pageCandidates. destruct (is_http normalized) eqn:E.
  - intros [<-|[]]. destruct normalized as [|c r]; [reflexivity|].
    cbn [lit startsWith]. destruct (N.eqb_spec (Ascii.N_of_ascii "/"%char) c) as [<-|Hne].
    + discriminate E.
    + reflexivity.
  - destruct (cid_and_path normalized) as [cid path]. cbn [map pathGateways].
    intros Hin. repeat destruct Hin as [<-|Hin]; try reflexivity. contradiction.
Qed.

Lemma In_firstn (A : Type) (k : nat) (l : list A) (x : A) :
  In x (firstn k l) -> In x l.
Proof.
  revert l; induction k as [|k IH]; intros [|y l]; cbn [firstn]; try contradiction.
  intros [->|H]; [left; reflexivity | right; apply IH; exact H].
Qed.

Lemma gateway_requests_not_proxy (normalized : jsstring) (k : nat) :
  filter is_proxy_call
    (map gateway_request (firstn k (pageCandidates normalized))) = [].
Proof.
  assert (H : forall l, (forall u, In u l -> In u (pageCandidates normalized)) ->
                        filter is_proxy_call (map gateway_request l) = []).
  { induction l as [|u l IH]; intros Hl; [reflexivity|].
    cbn [map filter]. unfold is_proxy_call at 1. cbn [req_url gateway_request].
    rewrite (page_candidates_not_proxy normalized u (Hl u (or_introl eq_refl))).
    apply IH. intros v Hv. apply Hl. right. exact Hv. }
  apply H. intros u Hu. eapply In_firstn. exact Hu.
Qed.

Section FetchIpfsFacts.
Variable String_ : value -> completion jsstring.
Variable JSON_parse : jsstring -> option value.
Variable net : network.

(** An invocation whose argument is truthy and whose [normalize] returns
    goes on with the returned pointer. *)
Lemma fetchIpfs_past_normalize (rawIpfs : value) (normalized : jsstring) :
  truthy rawIpfs = true ->
  normalize String_ rawIpfs = Normal normalized ->
  fetchIpfs String_ JSON_parse rawIpfs net
  = fetchIpfs_resolving JSON_parse normalized net.
Proof.
  intros Ht Hn. unfold fetchIpfs, fetchIpfs_resolving. rewrite Ht, Hn.
  cbn [negb of_completion].
  repeat (apply bind_ext; intros _).
  apply bind_ret_l.
Qed.

(** An invocation whose [normalize] throws stops after the four resets. *)
Lemma fetchIpfs_normalize_throws (rawIpfs : value) :
  truthy rawIpfs = true ->
  normalize String_ rawIpfs = Throw ->
  fetchIpfs String_ JSON_parse rawIpfs net = (resets, Raise).
Proof.
  intros Ht Hn. unfold fetchIpfs. rewrite Ht, Hn. reflexivity.
Qed.

(** The requests of an invocation that gets past its two guards: those
    of the proxy attempt, then gateway requests for an initial part of
    the candidate list. *)
Lemma fetchIpfs_requests (rawIpfs : value) (n : jsstring) :
  truthy rawIpfs = true ->
  normalize String_ rawIpfs = Normal n ->
  n <> [] ->
  exists k,
    requests (fst (fetchIpfs String_ JSON_parse rawIpfs net))
    = requests (failed_proxy_log n)
      ++ map gateway_request (firstn k (pageCandidates n)).
Proof.
  intros Ht Hnorm Hn. apply is_empty_false in Hn.
  rewrite (fetchIpfs_past_normalize rawIpfs n Ht Hnorm).
  unfold fetchIpfs_resolving. rewrite Hn.
  pose proof (try_proxy_requests JSON_parse net n) as Hp.
  destruct (try_gateways_requests JSON_parse net (pageCandidates n)) as [k Hg].
  unfold bind, emit.
  destruct (try_proxy JSON_parse n net) as [plog pres]. cbn [fst] in Hp.
  destruct pres as [[|]| |].
  - exists 0%nat. cbn. rewrite app_nil_r. rewrite <- Hp.
    rewrite app_nil_r. reflexivity.
  - destruct (try_gateways JSON_parse (pageCandidates n) net) as [glog gres].
    cbn [fst] in Hg. exists k.
    destruct gres as [[|]| |]; cbn [fst negb ret];
      repeat (rewrite requests_app || cbn [app requests flat_map]);
      rewrite ?app_nil_r; fold (requests plog); fold (requests glog);
      rewrite Hp, Hg; reflexivity.
  - exists 0%nat. cbn. rewrite app_nil_r. exact Hp.
  - exists 0%nat. cbn. rewrite app_nil_r. exact Hp.
Qed.
End FetchIpfsFacts.

(** C1. When the proxy request of an invocation of [fetchIpfs] is
    answered with HTTP ok and an envelope whose [ok] is true, the
    invocation stores the [data] and the [resolvedUrl] of the envelope,
    clears the error and returns; the proxy request is the only request
    it has sent, so that no gateway mirror is contacted.  Whatever the
    network answers, an invocation that gets that far sends exactly one
    request to the proxy.  The invocations that get that far are those
    whose argument is truthy and for which [normalize] returns a pointer
    that is not empty. *)
Theorem proxy_success_contacts_no_gateway :
  forall (String_ : value -> completion jsstring)
         (JSON_parse : jsstring -> option value)
         (net : network) (st : state) (rawIpfs : value)
         (normalized q t : jsstring) (after : N) (pr : response)
         (payload : value),
    truthy rawIpfs = true ->
    normalize String_ rawIpfs = Normal normalized ->
    normalized <> [] ->
    encodeURIComponent normalized = Some q ->
    net (proxy_request (proxy_url q)) = Responds after pr ->
    resp_ok pr = true ->
    resp_body pr = BodyText t ->
    JSON_parse t = Some payload ->
    truthy (prop payload (lit "ok")) = true ->
    exists log,
      fetchIpfs String_ JSON_parse rawIpfs net = (log, Ret tt)
      /\ requests log = [proxy_request (proxy_url q)]
      /\ ipfsData (state_after st log) = prop payload (lit "data")
      /\ ipfsResolvedUrl (state_after st log)
         = or_else (prop payload (lit "resolvedUrl")) VNull
      /\ ipfsError (state_after st log) = None
      /\ ipfsLoading (state_after st log) = false
      /\ (forall net' : network,
            length (filter is_proxy_call
                      (requests (fst (fetchIpfs String_ JSON_parse rawIpfs net'))))
            = 1%nat).
Proof.
  intros String_ JSON_parse net st rawIpfs normalized q t after pr payload
    Htruthy Hnorm Hne Hq Hnet Hok Hbody Hparse Henv.
  pose proof Hne as Hemp. apply is_empty_false in Hemp.
  eexists. split; [|repeat match goal with |- _ /\ _ => split end].
  - rewrite (fetchIpfs_past_normalize String_ JSON_parse net rawIpfs
               normalized Htruthy Hnorm).
    unfold fetchIpfs_resolving. rewrite Hemp.
    unfold bind, emit.
    rewrite (try_proxy_succeeds JSON_parse net _ q t after pr payload
               Hq Hnet Hok Hbody Hparse Henv).
    cbn. reflexivity.
  - reflexivity.
  - reflexivity.
  - reflexivity.
  - reflexivity.
  - reflexivity.
  - intros net'.
    destruct (fetchIpfs_requests String_ JSON_parse net' rawIpfs normalized
                Htruthy Hnorm Hne) as [k Hk].
    rewrite Hk. unfold failed_proxy_log. rewrite Hq.
    rewrite filter_app, gateway_requests_not_proxy, app_nil_r.
    reflexivity.
Qed.

Lemma proxy_success_contacts_no_gateway_witness :
  exists log,
    fetchIpfs String_conversion JSON_parse_sample (VStr (lit "ipfs://QmX"))
      proxy_answers = (log, Ret tt)
    /\ requests log = [proxy_request (proxy_url (lit "QmX"))]
    /\ ipfsData (state_after initial log) = prop envelope_value (lit "data")
    /\ ipfsResolvedUrl (state_after initial log)
       = or_else (prop envelope_value (lit "resolvedUrl")) VNull
    /\ ipfsError (state_after initial log) = None
    /\ ipfsLoading (state_after initial log) = false
    /\ (forall net' : network,
          length (filter is_proxy_call
                    (requests (fst (fetchIpfs String_conversion JSON_parse_sample
                                      (VStr (lit "ipfs://QmX")) net'))))
          = 1%nat).
Proof.
  apply (proxy_success_contacts_no_gateway String_conversion JSON_parse_sample
           proxy_answers initial (VStr (lit "ipfs://QmX")) (lit "QmX")
           (lit "QmX") envelope_text 120
           {| resp_ok := true;
              resp_content_type := Some (lit "application/json");
              resp_body := BodyText envelope_text |}
           envelope_value).
  - reflexivity.
  - reflexivity.
  - discriminate.
  - reflexivity.
  - reflexivity.
  - reflexivity.
  - reflexivity.
  - reflexivity.
  - reflexivity.
Defined.

(** C2. When the proxy attempt of an invocation of [fetchIpfs] fails and
    every candidate gateway URL fails, the invocation sets the
    resolution-failure error and [resolvedUrl] stays [null].  For an
    input that normalizes to the empty string the invocation returns
    without a request and without setting an error: the error is [null]
    after it when it got past its first guard, and the state is
    untouched when it did not.  The two outcomes differ in the error.
    [normalized] is what [normalize] returns for the argument. *)
Theorem exhausted_differs_from_empty :
  forall (String_ : value -> completion jsstring)
         (JSON_parse : jsstring -> option value)
         (net : network) (st : state) (rawIpfs : value)
         (normalized : jsstring),
    normalize String_ rawIpfs = Normal normalized ->
    let run := fetchIpfs String_ JSON_parse rawIpfs net in
    (truthy rawIpfs = true ->
     normalized <> [] ->
     proxy_fails JSON_parse net normalized = true ->
     forallb (gateway_fails JSON_parse net) (pageCandidates normalized) = true ->
     snd run = Ret tt
     /\ In (SetIpfsError (Some exhausted_message)) (fst run)
     /\ ipfsError (state_after st (fst run)) = Some exhausted_message
     /\ ipfsResolvedUrl (state_after st (fst run)) = VNull
     /\ requests (fst run)
        = requests (failed_proxy_log normalized)
          ++ map gateway_request (pageCandidates normalized))
    /\ (normalized = [] ->
        snd run = Ret tt
        /\ requests (fst run) = []
        /\ (forall msg, ~ In (SetIpfsError (Some msg)) (fst run))
        /\ (truthy rawIpfs = true -> ipfsError (state_after st (fst run)) = None)
        /\ (truthy rawIpfs = false -> state_after st (fst run) = st)
        /\ (ipfsError st = None -> ipfsError (state_after st (fst run)) = None)).
Proof.
  intros String_ JSON_parse net st rawIpfs normalized Hnorm run. split.
  - intros Htruthy Hne Hproxy Hgates.
    apply is_empty_false in Hne.
    assert (Hrun : run
              = ([SetIpfsLoading true; SetIpfsError None; SetIpfsData VNull;
                  SetIpfsResolvedUrl VNull]
                 ++ failed_proxy_log normalized
                 ++ [SetIpfsFallbackUrls (pageCandidates normalized)]
                 ++ map (fun u => Fetched (gateway_request u))
                      (pageCandidates normalized)
                 ++ [SetIpfsError (Some exhausted_message); SetIpfsLoading false],
                 Ret tt)).
    { unfold run.
      rewrite (fetchIpfs_past_normalize String_ JSON_parse net rawIpfs
                 normalized Htruthy Hnorm).
      unfold fetchIpfs_resolving. rewrite Hne.
      unfold bind, emit.
      rewrite (try_proxy_fails JSON_parse net normalized Hproxy).
      rewrite (try_gateways_all_fail JSON_parse net _ Hgates).
      cbn [negb app ret]. rewrite ?app_nil_r. reflexivity. }
    rewrite Hrun. cbn [fst snd].
    assert (Hlog : failed_proxy_log normalized
                   = map Fetched (requests (failed_proxy_log normalized))).
    { unfold failed_proxy_log. destruct (encodeURIComponent normalized); reflexivity. }
    repeat match goal with |- _ /\ _ => split end.
    + reflexivity.
    + apply in_or_app. right. apply in_or_app. right.
      apply in_or_app. right. apply in_or_app. right. left. reflexivity.
    + rewrite Hlog, <- (map_map gateway_request Fetched).
      rewrite !state_after_app, !state_after_fetches. reflexivity.
    + rewrite Hlog, <- (map_map gateway_request Fetched).
      rewrite !state_after_app, !state_after_fetches. reflexivity.
    + rewrite <- (map_map gateway_request Fetched).
      rewrite !requests_app, requests_fetches, app_nil_r. reflexivity.
  - intros Hempty.
    assert (Hrun : run = (if truthy rawIpfs
                          then [SetIpfsLoading true; SetIpfsError None;
                                SetIpfsData VNull; SetIpfsResolvedUrl VNull;
                                SetIpfsLoading false]
                          else [], Ret tt)).
    { unfold run, fetchIpfs. rewrite Hnorm, Hempty.
      destruct (truthy rawIpfs); reflexivity. }
    rewrite Hrun. cbn [fst snd].
    repeat match goal with |- _ /\ _ => split end.
    + reflexivity.
    + destruct (truthy rawIpfs); reflexivity.
    + intros msg Hin. destruct (truthy rawIpfs); cbn in Hin;
        repeat destruct Hin as [Hin|Hin]; try discriminate Hin; exact Hin.
    + intros ->. reflexivity.
    + intros ->. reflexivity.
    + intros Hst. destruct (truthy rawIpfs); [reflexivity | exact Hst].
Qed.

Lemma exhausted_differs_from_empty_witness :
  ipfsError
    (state_after initial
       (fst (fetchIpfs String_conversion JSON_parse_sample (VStr (lit "QmX"))
               all_reject)))
  = Some exhausted_message
  /\ ipfsError
       (state_after initial
          (fst (fetchIpfs String_conversion JSON_parse_sample
                  (VStr (lit "ipfs://")) all_reject)))
     = None.
Proof.
  split.
  - apply (proj1 (exhausted_differs_from_empty String_conversion
                    JSON_parse_sample all_reject initial (VStr (lit "QmX"))
                    (lit "QmX") eq_refl)).
    + reflexivity.
    + discriminate.
    + reflexivity.
    + reflexivity.
  - apply (proj2 (exhausted_differs_from_empty String_conversion
                    JSON_parse_sample all_reject initial (VStr (lit "ipfs://"))
                    [] eq_refl)).
    + reflexivity.
    + reflexivity.
Defined.

(** ** The proxy route *)

Import Route.

Section RouteFacts.
Variable JSON_parse : jsstring -> option value.
Variable net : network.

Lemma try_candidate_log (url : jsstring) :
  fst (try_candidate JSON_parse url net) = [Fetched (timed_request url 8000)].
Proof.
  run_await. hide_content_type. split_answers. all: reflexivity.
Qed.

Lemma try_candidate_returns (url : jsstring) (resp : http_response) :
  snd (try_candidate JSON_parse url net) = Ret (Some resp) ->
  exists after r,
    net (timed_request url 8000) = Responds after r
    /\ (after < 8000)%N
    /\ resp_ok r = true
    /\ status resp = 200%N
    /\ prop (envelope resp) (lit "ok") = VBool true
    /\ prop (envelope resp) (lit "resolvedUrl") = VStr url.
Proof.
  run_await. hide_content_type. intros H.
  destruct (net (timed_request url 8000)) as [after r| |] eqn:Hnet;
    cbn in H; try discriminate H.
  exists after, r. split; [reflexivity|].
  destruct (N.ltb_spec after 8000) as [Hlt|Hge]; cbn in H; [|discriminate H].
  split; [exact Hlt|].
  destruct (resp_ok r); cbn in H; [|discriminate H].
  split; [reflexivity|].
  split_answers.
  all: try discriminate H; injection H as <-; repeat split.
Qed.

Lemma try_candidate_settles (url : jsstring) :
  match snd (try_candidate JSON_parse url net) with
  | Ret _ => True
  | Raise => False
  | Hang => exists after r,
      net (timed_request url 8000) = Responds after r
      /\ resp_body r = BodyStall
  end.
Proof.
  run_await. hide_content_type.
  destruct (net (timed_request url 8000)) as [after r| |] eqn:Hnet;
    cbn; try exact I.
  destruct (N.ltb after 8000); cbn; [|exact I].
  destruct (resp_ok r); cbn; [|exact I].
  hide_content_type. split_answers.
  all: try exact I.
  all: exists after, r; split; solve [reflexivity | assumption].
Qed.

Lemma try_candidates_log (urls : list jsstring) :
  exists k,
    fst (try_candidates JSON_parse urls net)
    = map (fun u => Fetched (timed_request u 8000)) (firstn k urls).
Proof.
  induction urls as [|u r [k IH]]; [exists 0%nat; reflexivity|].
  cbn [try_candidates]. unfold bind at 1.
  pose proof (try_candidate_log u) as Hu.
  destruct (try_candidate JSON_parse u net) as [log [[resp|]| |]];
    cbn [fst] in Hu; subst log.
  - exists 1%nat. reflexivity.
  - destruct (try_candidates JSON_parse r net) as [log' res].
    cbn [fst] in IH. exists (S k). cbn [fst firstn map app].
    rewrite IH. reflexivity.
  - exists 1%nat. reflexivity.
  - exists 1%nat. reflexivity.
Qed.

Lemma try_candidates_returns (urls : list jsstring) (log : list event)
  (resp : http_response) :
  try_candidates JSON_parse urls net = (log, Ret (Some resp)) ->
  exists pre url post after r,
    urls = pre ++ url :: post
    /\ requests log = map (fun u => timed_request u 8000) (pre ++ [url])
    /\ net (timed_request url 8000) = Responds after r
    /\ (after < 8000)%N
    /\ resp_ok r = true
    /\ status resp = 200%N
    /\ prop (envelope resp) (lit "ok") = VBool true
    /\ prop (envelope resp) (lit "resolvedUrl") = VStr url.
Proof.
  revert log. induction urls as [|u rest IH]; intros log H; [discriminate H|].
  cbn [try_candidates] in H. unfold bind at 1 in H.
  pose proof (try_candidate_log u) as Hlog.
  pose proof (try_candidate_returns u) as Hret.
  destruct (try_candidate JSON_parse u net) as [ulog [[r0|]| |]];
    cbn [fst snd] in Hlog, Hret; subst ulog; try discriminate H.
  - cbn in H. injection H as <- ->.
    destruct (Hret resp eq_refl) as [after [r Hr]].
    exists [], u, rest, after, r. split; [reflexivity|].
    split; [reflexivity|]. exact Hr.
  - destruct (try_candidates JSON_parse rest net) as [log' res] eqn:E.
    injection H as <- ->.
    destruct (IH log' eq_refl)
      as [pre [url [post [after [r [Hurls [Hreq Hr]]]]]]].
    exists (u :: pre), url, post, after, r.
    split; [rewrite Hurls; reflexivity|].
    split; [|exact Hr].
    change (requests (Fetched (timed_request u 8000) :: log'))
      with ([timed_request u 8000] ++ requests log').
    rewrite Hreq. reflexivity.
Qed.

Lemma try_candidates_settle (urls : list jsstring) :
  bodies_end net ->
  exists returned, snd (try_candidates JSON_parse urls net) = Ret returned.
Proof.
  intros Hend. induction urls as [|u rest [returned IH]].
  - exists None. reflexivity.
  - cbn [try_candidates]. unfold bind at 1.
    pose proof (try_candidate_settles u) as Hu.
    destruct (try_candidate JSON_parse u net) as [ulog [[r0|]| |]];
      cbn [snd] in Hu.
    + exists (Some r0). reflexivity.
    + destruct (try_candidates JSON_parse rest net) as [log' res].
      cbn [snd] in IH. subst res. exists returned. reflexivity.
    + contradiction.
    + destruct Hu as [after [r [Hnet Hstall]]].
      exfalso. exact (Hend _ _ _ Hnet Hstall).
Qed.

(** The handler once [normalize] has returned for the string [raw]. *)
Lemma GET_of_string (String_ : value -> completion jsstring)
  (src_param : option jsstring) :
  GET String_ JSON_parse src_param net
  = (let src := normalize_string
                  match src_param with Some s => s | None => [] end in
     if is_empty src then ret missing_src
     else
       bind (try_candidates JSON_parse (buildCandidates src))
         (fun returned =>
            match returned with
            | Some resp => ret resp
            | None => ret (all_failed (buildCandidates src))
            end)) net.
Proof. unfold GET. cbn [normalize cbind of_completion]. apply bind_ret_l. Qed.
End RouteFacts.

(** C10. A request to the [GET] handler of the proxy route whose [src]
    parameter is absent, or normalizes to the empty string, is answered
    with status 400 and the envelope [{ok: false, error: ...}] without
    any gateway request.  An envelope with [ok: true] is only returned
    after a gateway has answered the last request sent with an ok
    status, in time; it comes with status 200 and names that URL.
    [src] is what [normalize] returns for the string of the parameter. *)
Theorem missing_src_is_rejected :
  forall (String_ : value -> completion jsstring)
         (JSON_parse : jsstring -> option value)
         (net : network) (src_param : option jsstring) (src : jsstring),
    normalize String_
      (VStr match src_param with Some s => s | None => [] end) = Normal src ->
    ((src_param = None \/ src = []) ->
       GET String_ JSON_parse src_param net = ([], Ret missing_src)
       /\ status missing_src = 400%N
       /\ prop (envelope missing_src) (lit "ok") = VBool false
       /\ prop (envelope missing_src) (lit "error")
          = VStr (lit "Missing or invalid src"))
    /\ (forall log resp,
          GET String_ JSON_parse src_param net = (log, Ret resp) ->
          prop (envelope resp) (lit "ok") = VBool true ->
          exists pre url after r,
            requests log = map (fun u => timed_request u 8000) (pre ++ [url])
            /\ In url (buildCandidates src)
            /\ net (timed_request url 8000) = Responds after r
            /\ (after < 8000)%N
            /\ resp_ok r = true
            /\ status resp = 200%N
            /\ prop (envelope resp) (lit "resolvedUrl") = VStr url).
Proof.
  intros String_ JSON_parse net src_param src Hnorm.
  rewrite normalize_of_string in Hnorm. injection Hnorm as Hnorm.
  rewrite GET_of_string. cbv zeta. rewrite Hnorm. split.
  - intros H.
    assert (Hsrc : src = []).
    { destruct H as [-> | H]; [symmetry; exact Hnorm | exact H]. }
    rewrite Hsrc. repeat split.
  - intros log resp Hrun Hok.
    destruct (is_empty src) eqn:Hemp.
    + injection Hrun as <- <-. discriminate Hok.
    + unfold bind in Hrun.
      destruct (try_candidates JSON_parse (buildCandidates src) net)
        as [clog [[r0|]| |]] eqn:E; try discriminate Hrun.
      * cbn in Hrun. rewrite app_nil_r in Hrun. injection Hrun as -> ->.
        destruct (try_candidates_returns JSON_parse net _ _ _ E)
          as [pre [url [post [after [r [Hurls [Hreq [Hnet [Hlt [Hrok [Hst [_ Hurl]]]]]]]]]]]].
        exists pre, url, after, r.
        repeat match goal with |- _ /\ _ => split end; try assumption.
        rewrite Hurls. apply in_or_app. right. left. reflexivity.
      * cbn in Hrun. injection Hrun as <- <-. discriminate Hok.
Qed.

Lemma missing_src_is_rejected_witness :
  GET String_conversion JSON_parse_sample (Some (lit " ipfs:// ")) proxy_answers
  = ([], Ret missing_src)
  /\ status missing_src = 400%N
  /\ prop (envelope missing_src) (lit "ok") = VBool false
  /\ prop (envelope missing_src) (lit "error")
     = VStr (lit "Missing or invalid src").
Proof.
  apply (proj1 (missing_src_is_rejected String_conversion JSON_parse_sample
                  proxy_answers (Some (lit " ipfs:// ")) [] eq_refl)).
  right. reflexivity.
Defined.

(** ** Timeouts *)

Lemma fetchIpfs_request_shapes (String_ : value -> completion jsstring)
  (JSON_parse : jsstring -> option value) (net : network)
  (rawIpfs : value) (rq : request) :
  In rq (requests (fst (fetchIpfs String_ JSON_parse rawIpfs net))) ->
  (exists q, rq = proxy_request (proxy_url q))
  \/ (exists u, rq = gateway_request u).
Proof.
  destruct (truthy rawIpfs) eqn:Ht.
  - destruct (normalize String_ rawIpfs) as [n|] eqn:Hnorm.
    2:{ rewrite (fetchIpfs_normalize_throws String_ JSON_parse net rawIpfs
                   Ht Hnorm). intros []. }
    destruct (is_empty n) eqn:Hn.
    + unfold fetchIpfs. rewrite Ht, Hnorm. cbn. rewrite Hn. intros [].
    + apply is_empty_false in Hn.
      destruct (fetchIpfs_requests String_ JSON_parse net rawIpfs n Ht Hnorm Hn)
        as [k Hk].
      rewrite Hk. intros Hin. apply in_app_or in Hin as [Hin|Hin].
      * left. unfold failed_proxy_log in Hin.
        destruct (encodeURIComponent n) as [q|]; [|contradiction].
        destruct Hin as [<-|[]]. exists q. reflexivity.
      * right. apply in_map_iff in Hin as [u [<- _]]. exists u. reflexivity.
  - unfold fetchIpfs. rewrite Ht. intros [].
Qed.

(** The claim C6 as it is written fails for the page: the request that
    [fetchIpfs] sends to the proxy carries no abort timer, and on a
    network that does not answer the invocation never settles. *)
Lemma page_proxy_request_can_hang :
  fetchIpfs String_conversion JSON_parse_sample (VStr (lit "QmX")) all_silent
  = ([SetIpfsLoading true; SetIpfsError None; SetIpfsData VNull;
      SetIpfsResolvedUrl VNull;
      Fetched (proxy_request (proxy_url (lit "QmX")))], Hang)
  /\ req_abort_ms (proxy_request (proxy_url (lit "QmX"))) = None.
Proof. split; reflexivity. Qed.

(** C6 (amended). Every request that the [GET] handler of the proxy
    route sends goes through [fetchWithTimeout] and carries a timer of
    8000 ms that aborts it when no response has arrived; the handler
    therefore answers on every network on which no response body
    stalls (the timer is cleared once [fetch] has settled and does not
    cover the reading of the body).  The requests that [fetchIpfs] of
    the page sends, to the proxy and to the gateways, carry no abort
    signal. *)
Theorem route_requests_are_bounded :
  forall (String_ : value -> completion jsstring)
         (JSON_parse : jsstring -> option value)
         (net : network) (src_param : option jsstring),
    (forall rq,
        In rq (requests (fst (GET String_ JSON_parse src_param net))) ->
        req_abort_ms rq = Some 8000%N)
    /\ (bodies_end net ->
        exists resp, snd (GET String_ JSON_parse src_param net) = Ret resp)
    /\ (forall rawIpfs rq,
          In rq (requests (fst (fetchIpfs String_ JSON_parse rawIpfs net))) ->
          req_abort_ms rq = None).
Proof.
  intros String_ JSON_parse net src_param.
  rewrite GET_of_string.
  set (src := normalize_string
                match src_param with Some s => s | None => [] end).
  cbv zeta.
  repeat match goal with |- _ /\ _ => split end.
  - intros rq.
    destruct (is_empty src); [intros []|].
    unfold bind.
    destruct (try_candidates_log JSON_parse net (buildCandidates src)) as [k Hk].
    destruct (try_candidates JSON_parse (buildCandidates src) net)
      as [clog res].
    cbn [fst] in Hk. subst clog.
    destruct res as [[resp|]| |]; unfold ret; cbn [fst];
      rewrite ?requests_app,
        <- (map_map (fun u => timed_request u 8000) Fetched), requests_fetches;
      cbn [requests flat_map]; rewrite ?app_nil_r;
      intros Hin; apply in_map_iff in Hin as [u [<- _]]; reflexivity.
  - intros Hend.
    destruct (is_empty src); [exists missing_src; reflexivity|].
    unfold bind.
    destruct (try_candidates_settle JSON_parse net (buildCandidates src) Hend)
      as [returned Hret].
    destruct (try_candidates JSON_parse (buildCandidates src) net)
      as [clog res].
    cbn [snd] in Hret. subst res.
    destruct returned as [resp|]; eexists; reflexivity.
  - intros rawIpfs rq Hin.
    destruct (fetchIpfs_request_shapes String_ JSON_parse net rawIpfs rq Hin)
      as [[q ->] | [u ->]]; reflexivity.
Qed.

Lemma route_requests_are_bounded_witness :
  exists resp,
    snd (GET String_conversion JSON_parse_sample (Some (lit "QmX")) all_silent)
    = Ret resp.
Proof.
  apply (proj1 (proj2 (route_requests_are_bounded String_conversion
                         JSON_parse_sample all_silent (Some (lit "QmX"))))).
  intros rq after r H. discriminate H.
Defined.

(* ------------------------------------------------------------------ *)
(** * Further properties of the page pipeline *)
(* ------------------------------------------------------------------ *)

Section PageShapes.
Variable JSON_parse : jsstring -> option value.
Variable net : network.

(** The three ways in which the proxy attempt can end. *)
Lemma try_proxy_shape (normalized : jsstring) :
  exists rqs,
    (exists d u,
        try_proxy JSON_parse normalized net
        = (map Fetched rqs
           ++ [SetIpfsData d; SetIpfsResolvedUrl u; SetIpfsError None;
               SetIpfsLoading false], Ret true))
    \/ try_proxy JSON_parse normalized net = (map Fetched rqs, Ret false)
    \/ (try_proxy JSON_parse normalized net = (map Fetched rqs, Hang)
        /\ ~ (always_answers net /\ bodies_end net)).
Proof.
  unfold proxy_url. run_await.
  destruct (encodeURIComponent normalized) as [q|];
    [|exists []; right; left; reflexivity].
  exists [proxy_request (lit "/api/ipfs?src=" ++ q)].
  cbn. destruct (net _) as [after r| |] eqn:Hnet; cbn.
  - destruct (resp_ok r); cbn; [|right; left; reflexivity].
    destruct (resp_body r) as [t| |] eqn:Hb; cbn.
    + destruct (JSON_parse t) as [payload|]; cbn; [|right; left; reflexivity].
      rewrite get_opt_prop. cbn.
      destruct (truthy (prop payload _)) eqn:Hok; cbn;
        [|right; left; reflexivity].
      rewrite !(prop_truthy_get payload _ _ Hok). cbn.
      left. eexists. eexists. reflexivity.
    + right; left; reflexivity.
    + right; right. split; [reflexivity|].
      intros [_ Hend]. exact (Hend _ _ _ Hnet Hb).
  - right; left; reflexivity.
  - right; right. split; [reflexivity|].
    intros [Hans _]. exact (Hans _ Hnet).
Qed.

Lemma try_gateway_shape (url : jsstring) :
  (exists d,
      try_gateway JSON_parse url net
      = ([Fetched (gateway_request url); SetIpfsData d;
          SetIpfsResolvedUrl (VStr url)], Ret true))
  \/ try_gateway JSON_parse url net = ([Fetched (gateway_request url)], Ret false)
  \/ (try_gateway JSON_parse url net = ([Fetched (gateway_request url)], Hang)
      /\ ~ (always_answers net /\ bodies_end net)).
Proof.
  run_await. destruct (net _) as [after r| |] eqn:Hnet; cbn.
  - destruct (resp_ok r); cbn; [|right; left; reflexivity].
    hide_content_type.
    destruct jf, (resp_body r) as [t| |] eqn:Hb; cbn;
      try (right; left; reflexivity);
      try (right; right; split; [reflexivity|];
           intros [_ Hend]; exact (Hend _ _ _ Hnet Hb)).
    + destruct (JSON_parse t); cbn; [|right; left; reflexivity].
      left. eexists. reflexivity.
    + destruct (JSON_parse t); cbn; left; eexists; reflexivity.
  - right; left; reflexivity.
  - right; right. split; [reflexivity|].
    intros [Hans _]. exact (Hans _ Hnet).
Qed.

Lemma try_gateways_shape (urls : list jsstring) :
  exists rqs,
    (exists url d,
        In url urls
        /\ try_gateways JSON_parse urls net
           = (map Fetched rqs ++ [SetIpfsData d; SetIpfsResolvedUrl (VStr url)],
              Ret true))
    \/ try_gateways JSON_parse urls net = (map Fetched rqs, Ret false)
    \/ (try_gateways JSON_parse urls net = (map Fetched rqs, Hang)
        /\ ~ (always_answers net /\ bodies_end net)).
Proof.
  induction urls as [|u rest [rqs IH]].
  - exists []. right; left. reflexivity.
  - assert (Hstep : try_gateways JSON_parse (u :: rest) net
                    = let (log, r) := try_gateway JSON_parse u net in
                      match r with
                      | Ret true => (log ++ [], Ret true)
                      | Ret false =>
                          let (log', r') := try_gateways JSON_parse rest net in
                          (log ++ log', r')
                      | Raise => (log, Raise)
                      | Hang => (log, Hang)
                      end).
    { cbn [try_gateways]. unfold bind at 1.
      destruct (try_gateway JSON_parse u net) as [log [[|]| |]]; reflexivity. }
    rewrite Hstep. clear Hstep.
    destruct (try_gateway_shape u) as [[d Hu] | [Hu | [Hu Hnot]]]; rewrite Hu.
    + exists [gateway_request u]. left. exists u, d.
      split; [left; reflexivity | reflexivity].
    + exists (gateway_request u :: rqs).
      destruct IH as [[url [d [Hin IH]]] | [IH | [IH Hnot]]]; rewrite IH.
      * left. exists url, d. split; [right; exact Hin | reflexivity].
      * right; left. reflexivity.
      * right; right. split; [reflexivity | exact Hnot].
    + exists [gateway_request u]. right; right. split; [reflexivity | exact Hnot].
Qed.
End PageShapes.

Section FetchIpfsShapes.
Variable String_ : value -> completion jsstring.
Variable JSON_parse : jsstring -> option value.
Variable net : network.

(** The four ways in which an invocation that gets past its guards can
    go: answered by the proxy, answered by a gateway, all candidates
    failed, or left without an end. *)
Lemma fetchIpfs_shapes (rawIpfs : value) (normalized : jsstring) :
  truthy rawIpfs = true ->
  normalize String_ rawIpfs = Normal normalized ->
  normalized <> [] ->
  let urls := pageCandidates normalized in
  let run := fetchIpfs String_ JSON_parse rawIpfs net in
  exists rqs,
    (exists d u,
        run = (resets ++ map Fetched rqs
               ++ [SetIpfsData d; SetIpfsResolvedUrl u; SetIpfsError None;
                   SetIpfsLoading false], Ret tt))
    \/ (exists rqs' url d,
          In url urls
          /\ run = (resets ++ map Fetched rqs ++ [SetIpfsFallbackUrls urls]
                    ++ map Fetched rqs'
                    ++ [SetIpfsData d; SetIpfsResolvedUrl (VStr url);
                        SetIpfsLoading false], Ret tt))
    \/ (exists rqs',
          run = (resets ++ map Fetched rqs ++ [SetIpfsFallbackUrls urls]
                 ++ map Fetched rqs'
                 ++ [SetIpfsError (Some exhausted_message);
                     SetIpfsLoading false], Ret tt))
    \/ (exists tail,
          run = (resets ++ map Fetched rqs ++ tail, Hang)
          /\ (tail = []
              \/ exists rqs', tail = [SetIpfsFallbackUrls urls] ++ map Fetched rqs')
          /\ ~ (always_answers net /\ bodies_end net)).
Proof.
  intros Ht Hnorm Hn urls run. apply is_empty_false in Hn.
  assert (Hrun : run
            = let (plog, pres) := try_proxy JSON_parse normalized net in
              match pres with
              | Ret true => (resets ++ plog, Ret tt)
              | Ret false =>
                  let (glog, gres) := try_gateways JSON_parse urls net in
                  match gres with
                  | Ret true =>
                      (resets ++ plog ++ [SetIpfsFallbackUrls urls] ++ glog
                       ++ [SetIpfsLoading false], Ret tt)
                  | Ret false =>
                      (resets ++ plog ++ [SetIpfsFallbackUrls urls] ++ glog
                       ++ [SetIpfsError (Some exhausted_message);
                           SetIpfsLoading false], Ret tt)
                  | Raise => (resets ++ plog ++ [SetIpfsFallbackUrls urls] ++ glog, Raise)
                  | Hang => (resets ++ plog ++ [SetIpfsFallbackUrls urls] ++ glog, Hang)
                  end
              | Raise => (resets ++ plog, Raise)
              | Hang => (resets ++ plog, Hang)
              end).
  { unfold run.
    rewrite (fetchIpfs_past_normalize String_ JSON_parse net rawIpfs
               normalized Ht Hnorm).
    unfold fetchIpfs_resolving, resets. rewrite Hn. unfold bind, emit.
    fold urls.
    destruct (try_proxy JSON_parse normalized net)
      as [plog [[|]| |]]; cbn [app ret]; rewrite ?app_nil_r; try reflexivity.
    destruct (try_gateways JSON_parse urls net) as [glog [[|]| |]];
      cbn [app ret negb]; rewrite ?app_nil_r; reflexivity. }
  rewrite Hrun. clear Hrun.
  destruct (try_proxy_shape JSON_parse net normalized)
    as [rqs [[d [u Hp]] | [Hp | [Hp Hnot]]]]; rewrite Hp; exists rqs.
  - left. exists d, u. rewrite <- ?app_assoc. reflexivity.
  - destruct (try_gateways_shape JSON_parse net urls)
      as [rqs' [[url [d [Hin Hg]]] | [Hg | [Hg Hnot]]]]; rewrite Hg.
    + right; left. exists rqs', url, d. split; [exact Hin|].
      rewrite <- ?app_assoc. reflexivity.
    + right; right; left. exists rqs'. reflexivity.
    + right; right; right. exists ([SetIpfsFallbackUrls urls] ++ map Fetched rqs').
      split; [reflexivity|]. split; [|exact Hnot]. right. exists rqs'. reflexivity.
  - right; right; right. exists []. rewrite app_nil_r.
    split; [reflexivity|]. split; [left; reflexivity | exact Hnot].
Qed.

(** The run of an invocation that stops at one of its two guards. *)
Lemma fetchIpfs_guarded (rawIpfs : value) :
  (truthy rawIpfs = false ->
   fetchIpfs String_ JSON_parse rawIpfs net = ([], Ret tt))
  /\ (truthy rawIpfs = true -> normalize String_ rawIpfs = Normal [] ->
      fetchIpfs String_ JSON_parse rawIpfs net
      = (resets ++ [SetIpfsLoading false], Ret tt)).
Proof.
  split.
  - intros Ht. unfold fetchIpfs. rewrite Ht. reflexivity.
  - intros Ht Hn. unfold fetchIpfs. rewrite Ht, Hn. reflexivity.
Qed.

End FetchIpfsShapes.

Ltac after_log :=
  rewrite ?state_after_app, ?state_after_fetches;
  cbn [state_after fold_left apply_event app
       ipfsData ipfsLoading ipfsError ipfsResolvedUrl ipfsFallbackUrls].

(** X1. An invocation of [fetchIpfs] throws in one case only: its
    argument is truthy and the string conversion inside [normalize],
    which runs outside every [try], throws.  The four resets have then
    been made, [ipfsLoading] is left true and no request has been sent.
    A string argument never makes it throw, whatever the network does.
    When [normalize] returns, the invocation returns on every network
    that answers or rejects every request and lets every body end. *)
Theorem fetchIpfs_throws_only_in_normalize :
  forall (String_ : value -> completion jsstring)
         (JSON_parse : jsstring -> option value)
         (net : network) (st : state) (rawIpfs : value),
    let run := fetchIpfs String_ JSON_parse rawIpfs net in
    (snd run = Raise <->
     truthy rawIpfs = true /\ normalize String_ rawIpfs = Throw)
    /\ (snd run = Raise ->
        fst run = resets
        /\ requests (fst run) = []
        /\ ipfsLoading (state_after st (fst run)) = true)
    /\ (forall s, rawIpfs = VStr s -> snd run <> Raise)
    /\ (truthy rawIpfs = false \/ normalize String_ rawIpfs <> Throw ->
        always_answers net -> bodies_end net ->
        snd run = Ret tt).
Proof.
  intros String_ JSON_parse net st rawIpfs run.
  assert (Hcases :
            (run = (resets, Raise)
             /\ truthy rawIpfs = true /\ normalize String_ rawIpfs = Throw)
            \/ (snd run <> Raise
                /\ (truthy rawIpfs = false \/ normalize String_ rawIpfs <> Throw)
                /\ (always_answers net -> bodies_end net -> snd run = Ret tt))).
  { unfold run. destruct (truthy rawIpfs) eqn:Ht.
    2:{ right.
        rewrite (proj1 (fetchIpfs_guarded String_ JSON_parse net rawIpfs) Ht).
        split; [discriminate|]. split; [left|]; reflexivity. }
    destruct (normalize String_ rawIpfs) as [n|] eqn:Hnorm.
    2:{ left.
        rewrite (fetchIpfs_normalize_throws String_ JSON_parse net rawIpfs
                   Ht Hnorm).
        repeat split. }
    right.
    assert (Hright : false = false \/ Normal n <> (Throw : completion jsstring))
      by (left; reflexivity).
    destruct (is_empty n) eqn:Hn.
    { apply is_empty_true in Hn. subst n.
      rewrite (proj2 (fetchIpfs_guarded String_ JSON_parse net rawIpfs)
                 Ht Hnorm).
      split; [discriminate|]. split; [right; discriminate | reflexivity]. }
    apply is_empty_false in Hn.
    destruct (fetchIpfs_shapes String_ JSON_parse net rawIpfs n Ht Hnorm Hn)
      as [rqs [[d [u H]] | [[rqs' [url [d [_ H]]]] | [[rqs' H]
           | [tail [H [_ Hnot]]]]]]]; rewrite H; cbn [snd];
      (split; [discriminate|]); (split; [right; discriminate|]);
      try reflexivity.
    intros Hans Hend. exfalso. apply Hnot. split; assumption. }
  repeat match goal with |- _ /\ _ => split end.
  - split.
    + intros Hraise. destruct Hcases as [[_ Hc] | [Hno _]];
        [exact Hc | contradiction].
    + intros [Ht Hnorm]. destruct Hcases as [[-> _] | [_ [[Hf | Hn] _]]].
      * reflexivity.
      * congruence.
      * contradiction.
  - intros Hraise. destruct Hcases as [[-> _] | [Hno _]]; [|contradiction].
    repeat split.
  - intros s -> Hraise.
    destruct Hcases as [[_ [_ Hc]] | [Hno _]]; [discriminate Hc | contradiction].
  - intros Hpre. destruct Hcases as [[_ [Ht Hc]] | [_ [_ Hret]]];
      [|exact Hret].
    destruct Hpre as [Hf | Hn]; [congruence | contradiction].
Qed.

Lemma fetchIpfs_throws_only_in_normalize_witness :
  snd (fetchIpfs String_conversion JSON_parse_sample
         (VObj [(lit "toString", VNum 1)]) all_reject) = Raise
  /\ ipfsLoading
       (state_after initial
          (fst (fetchIpfs String_conversion JSON_parse_sample
                  (VObj [(lit "toString", VNum 1)]) all_reject))) = true
  /\ snd (fetchIpfs String_conversion JSON_parse_sample (VStr (lit "QmX"))
            all_reject) = Ret tt.
Proof.
  split; [|split].
  - apply (proj1 (fetchIpfs_throws_only_in_normalize String_conversion JSON_parse_sample
                    all_reject initial (VObj [(lit "toString", VNum 1)]))).
    split; reflexivity.
  - apply (proj1 (proj2 (fetchIpfs_throws_only_in_normalize String_conversion
                           JSON_parse_sample all_reject initial
                           (VObj [(lit "toString", VNum 1)])))).
    reflexivity.
  - apply (proj2 (proj2 (proj2 (fetchIpfs_throws_only_in_normalize String_conversion
                                  JSON_parse_sample all_reject initial
                                  (VStr (lit "QmX")))))).
    + right. discriminate.
    + intros rq H. discriminate H.
    + intros rq after r H. discriminate H.
Defined.

(** X2. An invocation of [fetchIpfs] that got past its first guard
    leaves [ipfsLoading] false when it returns, on every path, and true
    for as long as it does not settle. *)
Theorem fetchIpfs_clears_loading :
  forall (String_ : value -> completion jsstring)
         (JSON_parse : jsstring -> option value)
         (net : network) (st : state) (rawIpfs : value),
    truthy rawIpfs = true ->
    let run := fetchIpfs String_ JSON_parse rawIpfs net in
    (snd run = Ret tt -> ipfsLoading (state_after st (fst run)) = false)
    /\ (snd run = Hang -> ipfsLoading (state_after st (fst run)) = true).
Proof.
  intros String_ JSON_parse net st rawIpfs Ht run. unfold run.
  destruct (normalize String_ rawIpfs) as [n|] eqn:Hnorm.
  2:{ rewrite (fetchIpfs_normalize_throws String_ JSON_parse net rawIpfs
                 Ht Hnorm).
      split; discriminate. }
  destruct (is_empty n) eqn:Hn.
  { apply is_empty_true in Hn. subst n.
    rewrite (proj2 (fetchIpfs_guarded String_ JSON_parse net rawIpfs) Ht Hnorm).
    split; [reflexivity | discriminate]. }
  apply is_empty_false in Hn.
  destruct (fetchIpfs_shapes String_ JSON_parse net rawIpfs n Ht Hnorm Hn)
    as [rqs [[d [u H]] | [[rqs' [url [d [_ H]]]] | [[rqs' H]
         | [tail [H [[-> | [rqs' ->]] _]]]]]]]; rewrite H; cbn [fst snd];
    (split; [intros E | intros E]); try discriminate E; unfold resets;
    after_log; reflexivity.
Qed.

Lemma fetchIpfs_clears_loading_witness :
  ipfsLoading
    (state_after initial
       (fst (fetchIpfs String_conversion JSON_parse_sample (VStr (lit "QmX"))
               all_silent))) = true.
Proof.
  apply (proj2 (fetchIpfs_clears_loading String_conversion JSON_parse_sample
                  all_silent initial (VStr (lit "QmX")) eq_refl)).
  reflexivity.
Defined.

(** X3. After an invocation of [fetchIpfs] that got past its first guard
    and has returned, an error is never shown beside data: either
    [ipfsError] is [null], or it is the resolution-failure message and
    then [ipfsData] and [ipfsResolvedUrl] are [null] and
    [ipfsFallbackUrls] is the candidate list of the pointer of this
    invocation. *)
Theorem fetchIpfs_error_excludes_data :
  forall (String_ : value -> completion jsstring)
         (JSON_parse : jsstring -> option value)
         (net : network) (st : state) (rawIpfs : value),
    truthy rawIpfs = true ->
    let run := fetchIpfs String_ JSON_parse rawIpfs net in
    let post := state_after st (fst run) in
    snd run = Ret tt ->
    ipfsError post = None
    \/ (ipfsError post = Some exhausted_message
        /\ ipfsData post = VNull
        /\ ipfsResolvedUrl post = VNull
        /\ exists normalized,
             normalize String_ rawIpfs = Normal normalized
             /\ ipfsFallbackUrls post = pageCandidates normalized).
Proof.
  intros String_ JSON_parse net st rawIpfs Ht run post. unfold post, run.
  destruct (normalize String_ rawIpfs) as [n|] eqn:Hnorm.
  2:{ rewrite (fetchIpfs_normalize_throws String_ JSON_parse net rawIpfs
                 Ht Hnorm).
      discriminate. }
  destruct (is_empty n) eqn:Hn.
  { apply is_empty_true in Hn. subst n.
    rewrite (proj2 (fetchIpfs_guarded String_ JSON_parse net rawIpfs) Ht Hnorm).
    intros _. left. reflexivity. }
  apply is_empty_false in Hn.
  destruct (fetchIpfs_shapes String_ JSON_parse net rawIpfs n Ht Hnorm Hn)
    as [rqs [[d [u H]] | [[rqs' [url [d [_ H]]]] | [[rqs' H]
         | [tail [H _]]]]]]; rewrite H; cbn [fst snd]; intros E;
    try discriminate E; unfold resets; after_log.
  - left. reflexivity.
  - left. reflexivity.
  - right. repeat split. exists n. split; reflexivity.
Qed.

Lemma fetchIpfs_error_excludes_data_witness :
  let post := state_after initial
                (fst (fetchIpfs String_conversion JSON_parse_sample
                        (VStr (lit "QmX")) all_reject)) in
  ipfsError post = None
  \/ (ipfsError post = Some exhausted_message
      /\ ipfsData post = VNull
      /\ ipfsResolvedUrl post = VNull
      /\ exists normalized,
           normalize String_conversion (VStr (lit "QmX")) = Normal normalized
           /\ ipfsFallbackUrls post = pageCandidates normalized).
Proof.
  apply (fetchIpfs_error_excludes_data String_conversion JSON_parse_sample
           all_reject initial (VStr (lit "QmX"))).
  - reflexivity.
  - reflexivity.
Defined.

Section FirstSuccess.
Variable JSON_parse : jsstring -> option value.
Variable net : network.

Lemma try_gateway_succeeds (url t : jsstring) (after : N) (r : response) :
  net (gateway_request url) = Responds after r ->
  usable JSON_parse r t ->
  try_gateway JSON_parse url net
  = ([Fetched (gateway_request url); SetIpfsData (page_data JSON_parse t);
      SetIpfsResolvedUrl (VStr url)], Ret true).
Proof.
  intros Hnet [Hok [Hbody Hjson]]. unfold page_data.
  run_await. rewrite Hnet. cbn. rewrite Hok. cbn.
  match goal with
  | |- context [(if ?x then _ else _) net] => change x with (json_flavored r)
  end.
  destruct (json_flavored r); cbn; rewrite Hbody; cbn.
  - specialize (Hjson eq_refl).
    destruct (JSON_parse t); [reflexivity | contradiction].
  - destruct (JSON_parse t); reflexivity.
Qed.

Lemma try_gateways_first_success (pre post : list jsstring) (url t : jsstring)
  (after : N) (r : response) :
  forallb (gateway_fails JSON_parse net) pre = true ->
  net (gateway_request url) = Responds after r ->
  usable JSON_parse r t ->
  try_gateways JSON_parse (pre ++ url :: post) net
  = (map Fetched (map gateway_request (pre ++ [url]))
     ++ [SetIpfsData (page_data JSON_parse t); SetIpfsResolvedUrl (VStr url)],
     Ret true).
Proof.
  intros Hpre Hnet Huse. induction pre as [|u pre IH].
  - cbn [app try_gateways]. unfold bind at 1.
    rewrite (try_gateway_succeeds url t after r Hnet Huse). reflexivity.
  - cbn [forallb] in Hpre. apply andb_true_iff in Hpre as [Hu Hpre].
    cbn [app try_gateways]. unfold bind at 1.
    rewrite (try_gateway_fails JSON_parse net u Hu). rewrite (IH Hpre).
    reflexivity.
Qed.
End FirstSuccess.

(** X4. When the proxy attempt of [fetchIpfs] fails, the candidates are
    tried in order and the first that answers with an ok status and a
    usable body wins: its JSON, or its raw text under [content] when the
    text is no JSON, becomes [ipfsData], its URL becomes
    [ipfsResolvedUrl], no error is set, and no later candidate is
    contacted. *)
Theorem page_first_success_wins :
  forall (String_ : value -> completion jsstring)
         (JSON_parse : jsstring -> option value)
         (net : network) (st : state) (rawIpfs : value)
         (normalized : jsstring)
         (pre post : list jsstring) (url t : jsstring) (after : N)
         (r : response),
    let run := fetchIpfs String_ JSON_parse rawIpfs net in
    let final := state_after st (fst run) in
    truthy rawIpfs = true ->
    normalize String_ rawIpfs = Normal normalized ->
    normalized <> [] ->
    proxy_fails JSON_parse net normalized = true ->
    pageCandidates normalized = pre ++ url :: post ->
    forallb (gateway_fails JSON_parse net) pre = true ->
    net (gateway_request url) = Responds after r ->
    usable JSON_parse r t ->
    snd run = Ret tt
    /\ requests (fst run)
       = requests (failed_proxy_log normalized)
         ++ map gateway_request (pre ++ [url])
    /\ ipfsData final = page_data JSON_parse t
    /\ ipfsResolvedUrl final = VStr url
    /\ ipfsError final = None
    /\ ipfsLoading final = false.
Proof.
  intros String_ JSON_parse net st rawIpfs normalized pre post url t after r
    run final Ht Hnorm Hn Hproxy Hurls Hpre Hnet Huse.
  apply is_empty_false in Hn.
  assert (Hlog : failed_proxy_log normalized
                 = map Fetched (requests (failed_proxy_log normalized))).
  { unfold failed_proxy_log. destruct (encodeURIComponent normalized); reflexivity. }
  assert (Hrun : run
            = ([SetIpfsLoading true; SetIpfsError None; SetIpfsData VNull;
                SetIpfsResolvedUrl VNull]
               ++ map Fetched (requests (failed_proxy_log normalized))
               ++ [SetIpfsFallbackUrls (pre ++ url :: post)]
               ++ map Fetched (map gateway_request (pre ++ [url]))
               ++ [SetIpfsData (page_data JSON_parse t);
                   SetIpfsResolvedUrl (VStr url); SetIpfsLoading false],
               Ret tt)).
  { unfold run.
    rewrite (fetchIpfs_past_normalize String_ JSON_parse net rawIpfs
               normalized Ht Hnorm).
    unfold fetchIpfs_resolving. rewrite Hn.
    unfold bind, emit.
    rewrite (try_proxy_fails JSON_parse net normalized Hproxy), Hurls.
    rewrite (try_gateways_first_success JSON_parse net pre post url t after r
               Hpre Hnet Huse).
    cbn [negb app ret]. rewrite <- Hlog, <- ?app_assoc. reflexivity. }
  unfold final. rewrite Hrun. cbn [fst snd].
  repeat match goal with |- _ /\ _ => split end.
  - reflexivity.
  - rewrite !requests_app, !requests_fetches. cbn. rewrite app_nil_r.
    reflexivity.
  - after_log. reflexivity.
  - after_log. reflexivity.
  - after_log. reflexivity.
  - after_log. reflexivity.
Qed.

Lemma page_first_success_wins_witness :
  let net : network :=
    fun rq =>
      if str_eqb (req_url rq) (lit "https://ipfs.io/ipfs/QmX")
      then Responds 40 {| resp_ok := true;
                          resp_content_type := Some (lit "text/plain");
                          resp_body := BodyText (lit "hello") |}
      else Rejects in
  let final := state_after initial
                 (fst (fetchIpfs String_conversion JSON_parse_sample
                         (VStr (lit "QmX")) net)) in
  ipfsData final = VObj [(lit "content", VStr (lit "hello"))]
  /\ ipfsResolvedUrl final = VStr (lit "https://ipfs.io/ipfs/QmX").
Proof.
  intros net final.
  pose proof (page_first_success_wins String_conversion JSON_parse_sample net
                initial (VStr (lit "QmX")) (lit "QmX")
                [lit "https://cloudflare-ipfs.com/ipfs/QmX"]
                [lit "https://nftstorage.link/ipfs/QmX";
                 lit "https://dweb.link/ipfs/QmX";
                 lit "https://gateway.pinata.cloud/ipfs/QmX"]
                (lit "https://ipfs.io/ipfs/QmX") (lit "hello") 40
                {| resp_ok := true;
                   resp_content_type := Some (lit "text/plain");
                   resp_body := BodyText (lit "hello") |}
                eq_refl eq_refl) as H.
  destruct H as [_ [_ [Hd [Hu _]]]].
  - discriminate.
  - reflexivity.
  - reflexivity.
  - reflexivity.
  - reflexivity.
  - split; [reflexivity|]. split; [reflexivity|]. intros H. discriminate H.
  - split; [exact Hd | exact Hu].
Defined.

Lemma NoDup_firstn (A : Type) (k : nat) (l : list A) :
  NoDup l -> NoDup (firstn k l).
Proof.
  revert l; induction k as [|k IH]; intros [|x l] H; cbn [firstn];
    try constructor.
  - inversion H as [|? ? Hx _]; subst. intros Hin. apply Hx.
    eapply In_firstn. exact Hin.
  - inversion H; subst. apply IH. assumption.
Qed.

Lemma NoDup_map_injective (A B : Type) (f : A -> B) (l : list A) :
  (forall x y, f x = f y -> x = y) -> NoDup l -> NoDup (map f l).
Proof.
  intros Hinj. induction 1 as [|x l Hx _ IH]; cbn [map]; constructor.
  - intros Hin. apply in_map_iff in Hin as [y [Hy Hin]].
    apply Hinj in Hy. subst y. exact (Hx Hin).
  - exact IH.
Qed.

Lemma firstn_length_le (A : Type) (k : nat) (l : list A) :
  (length (firstn k l) <= length l)%nat.
Proof.
  revert l; induction k as [|k IH]; intros [|x l]; cbn [firstn length]; try lia.
  specialize (IH l). lia.
Qed.

Lemma page_candidates_distinct (normalized : jsstring) :
  NoDup (pageCandidates normalized)
  /\ (length (pageCandidates normalized) <= 5)%nat.
Proof.
  unfold pageCandidates. destruct (is_http normalized).
  - split; [|cbn; lia]. constructor; [intros [] | constructor].
  - destruct (cid_and_path normalized) as [cid path].
    cbn [map pathGateways]. split; [|cbn; lia].
    repeat constructor; cbn [In]; intros H;
      repeat destruct H as [H|H]; try discriminate H; exact H.
Qed.

(** X5. [fetchIpfs] makes a single pass: its requests are at most one
    request to the proxy followed by requests for an initial part of
    the candidate list, in the order of the list.  No request is sent
    twice and there are at most six of them. *)
Theorem fetchIpfs_single_pass :
  forall (String_ : value -> completion jsstring)
         (JSON_parse : jsstring -> option value)
         (net : network) (rawIpfs : value),
    let rqs := requests (fst (fetchIpfs String_ JSON_parse rawIpfs net)) in
    (rqs = []
     \/ exists normalized k,
          normalize String_ rawIpfs = Normal normalized
          /\ rqs = requests (failed_proxy_log normalized)
                   ++ map gateway_request
                        (firstn k (pageCandidates normalized)))
    /\ NoDup rqs
    /\ (length rqs <= 6)%nat.
Proof.
  intros String_ JSON_parse net rawIpfs rqs.
  assert (Hnone : rqs = [] -> (rqs = [] \/ exists normalized k,
            normalize String_ rawIpfs = Normal normalized
            /\ rqs = requests (failed_proxy_log normalized)
                     ++ map gateway_request
                          (firstn k (pageCandidates normalized)))
          /\ NoDup rqs /\ (length rqs <= 6)%nat).
  { intros ->. split; [left; reflexivity|]. split; [constructor | cbn; lia]. }
  destruct (truthy rawIpfs) eqn:Ht.
  2:{ apply Hnone. unfold rqs.
      rewrite (proj1 (fetchIpfs_guarded String_ JSON_parse net rawIpfs) Ht).
      reflexivity. }
  destruct (normalize String_ rawIpfs) as [normalized|] eqn:Hnorm.
  2:{ apply Hnone. unfold rqs.
      rewrite (fetchIpfs_normalize_throws String_ JSON_parse net rawIpfs
                 Ht Hnorm).
      reflexivity. }
  destruct (is_empty normalized) eqn:Hn.
  { apply Hnone. apply is_empty_true in Hn. subst normalized. unfold rqs.
    rewrite (proj2 (fetchIpfs_guarded String_ JSON_parse net rawIpfs) Ht Hnorm).
    reflexivity. }
  clear Hnone. apply is_empty_false in Hn.
  destruct (fetchIpfs_requests String_ JSON_parse net rawIpfs normalized
              Ht Hnorm Hn) as [k Hk].
  fold rqs in Hk.
  destruct (page_candidates_distinct normalized) as [Hnd Hlen].
  split; [right; exists normalized, k; split; [reflexivity | exact Hk]|].
  assert (Hgate : NoDup (map gateway_request (firstn k (pageCandidates normalized)))).
  { apply NoDup_map_injective.
    - intros u v H. injection H as H. exact H.
    - apply NoDup_firstn. exact Hnd. }
  pose proof (firstn_length_le _ k (pageCandidates normalized)) as Hk5.
  rewrite Hk. unfold failed_proxy_log.
  destruct (encodeURIComponent normalized) as [q|]; cbn [requests flat_map app].
  - split.
    + constructor; [|exact Hgate].
      intros Hin. apply in_map_iff in Hin as [u [Hu _]]. discriminate Hu.
    + cbn [length]. rewrite length_map. lia.
  - split; [exact Hgate|]. rewrite length_map. lia.
Qed.

(* ------------------------------------------------------------------ *)
(** * Further properties of the proxy route *)
(* ------------------------------------------------------------------ *)

Section RouteOutcomes.
Variable JSON_parse : jsstring -> option value.
Variable net : network.

Lemma try_candidate_fails (url : jsstring) :
  candidate_fails JSON_parse net url = true ->
  try_candidate JSON_parse url net
  = ([Fetched (timed_request url 8000)], Ret None).
Proof.
  unfold candidate_fails, json_flavored. intros H. run_await.
  destruct (net (timed_request url 8000)) as [after r| |]; cbn in *;
    try reflexivity.
  destruct (N.ltb after 8000); cbn in *; [|reflexivity].
  destruct (resp_ok r); cbn in *; [|reflexivity].
  hide_content_type. split_answers. all: try discriminate; reflexivity.
Qed.

Lemma try_candidate_succeeds (url t : jsstring) (after : N) (r : response) :
  net (timed_request url 8000) = Responds after r ->
  (after < 8000)%N ->
  usable JSON_parse r t ->
  try_candidate JSON_parse url net
  = ([Fetched (timed_request url 8000)],
     Ret (Some (success_envelope url (content_type_or_empty r)
                  (route_data JSON_parse t)))).
Proof.
  intros Hnet Hlt [Hok [Hbody Hjson]]. unfold route_data.
  apply N.ltb_lt in Hlt.
  run_await. rewrite Hnet. cbn. rewrite Hlt. cbn. rewrite Hok. cbn.
  match goal with
  | |- context [(if ?x then _ else _) net] => change x with (json_flavored r)
  end.
  destruct (json_flavored r); cbn; rewrite Hbody; cbn.
  - specialize (Hjson eq_refl).
    destruct (JSON_parse t); [reflexivity | contradiction].
  - destruct (JSON_parse t); reflexivity.
Qed.

Lemma try_candidates_all_fail (urls : list jsstring) :
  forallb (candidate_fails JSON_parse net) urls = true ->
  try_candidates JSON_parse urls net
  = (map (fun u => Fetched (timed_request u 8000)) urls, Ret None).
Proof.
  induction urls as [|u rest IH]; intros H; [reflexivity|].
  cbn [forallb] in H. apply andb_true_iff in H as [Hu Hrest].
  cbn [try_candidates]. unfold bind at 1.
  rewrite (try_candidate_fails u Hu), (IH Hrest). reflexivity.
Qed.

Lemma try_candidates_first_success (pre post : list jsstring) (url t : jsstring)
  (after : N) (r : response) :
  forallb (candidate_fails JSON_parse net) pre = true ->
  net (timed_request url 8000) = Responds after r ->
  (after < 8000)%N ->
  usable JSON_parse r t ->
  try_candidates JSON_parse (pre ++ url :: post) net
  = (map (fun u => Fetched (timed_request u 8000)) (pre ++ [url]),
     Ret (Some (success_envelope url (content_type_or_empty r)
                  (route_data JSON_parse t)))).
Proof.
  intros Hpre Hnet Hlt Huse. induction pre as [|u pre IH].
  - cbn [app try_candidates]. unfold bind at 1.
    rewrite (try_candidate_succeeds url t after r Hnet Hlt Huse). reflexivity.
  - cbn [forallb] in Hpre. apply andb_true_iff in Hpre as [Hu Hpre].
    cbn [app try_candidates]. unfold bind at 1.
    rewrite (try_candidate_fails u Hu), (IH Hpre). reflexivity.
Qed.

Lemma try_candidates_never_raise (urls : list jsstring) :
  snd (try_candidates JSON_parse urls net) <> Raise.
Proof.
  induction urls as [|u rest IH]; [discriminate|].
  cbn [try_candidates]. unfold bind at 1.
  pose proof (try_candidate_settles JSON_parse net u) as Hu.
  destruct (try_candidate JSON_parse u net) as [ulog [[r0|]| |]]; cbn [snd] in Hu.
  - discriminate.
  - destruct (try_candidates JSON_parse rest net) as [log' res]. exact IH.
  - contradiction.
  - discriminate.
Qed.
End RouteOutcomes.

(** X6. When the [src] of a request to [GET] is not empty and every
    candidate fails, the handler has tried all candidates once, in
    order, and answers with status 502, [ok: false] and the list of
    the candidates it tried. *)
Theorem route_exhausted_answers_502 :
  forall (String_ : value -> completion jsstring)
         (JSON_parse : jsstring -> option value)
         (net : network) (src_param : option jsstring) (src : jsstring),
    normalize String_
      (VStr match src_param with Some s => s | None => [] end) = Normal src ->
    src <> [] ->
    forallb (candidate_fails JSON_parse net) (buildCandidates src) = true ->
    exists resp,
      GET String_ JSON_parse src_param net
      = (map (fun u => Fetched (timed_request u 8000)) (buildCandidates src),
         Ret resp)
      /\ status resp = 502%N
      /\ prop (envelope resp) (lit "ok") = VBool false
      /\ prop (envelope resp) (lit "candidates")
         = VArr (map VStr (buildCandidates src)).
Proof.
  intros String_ JSON_parse net src_param src Hnorm Hsrc Hfail.
  rewrite normalize_of_string in Hnorm. injection Hnorm as Hnorm.
  exists (all_failed (buildCandidates src)).
  apply is_empty_false in Hsrc.
  split; [|repeat split].
  rewrite GET_of_string. cbv zeta. rewrite Hnorm, Hsrc. unfold bind.
  rewrite (try_candidates_all_fail JSON_parse net _ Hfail).
  cbn [ret]. rewrite app_nil_r. reflexivity.
Qed.

Lemma route_exhausted_answers_502_witness :
  exists resp,
    GET String_conversion JSON_parse_sample (Some (lit "ipfs://QmX")) all_silent
    = (map (fun u => Fetched (timed_request u 8000))
         (buildCandidates (lit "QmX")), Ret resp)
    /\ status resp = 502%N
    /\ prop (envelope resp) (lit "ok") = VBool false
    /\ prop (envelope resp) (lit "candidates")
       = VArr (map VStr (buildCandidates (lit "QmX"))).
Proof.
  apply (route_exhausted_answers_502 String_conversion JSON_parse_sample
           all_silent (Some (lit "ipfs://QmX")) (lit "QmX")).
  - reflexivity.
  - discriminate.
  - reflexivity.
Defined.

(** X7. [GET] tries its candidates in order and answers with the first
    that responds within 8000 ms with an ok status and a usable body:
    status 200 and an envelope with [ok: true], the URL of that
    candidate, its content type, and as [data] the parsed JSON, or the
    raw text as a string when the text is no JSON.  Later candidates
    are not contacted. *)
Theorem route_first_success_wins :
  forall (String_ : value -> completion jsstring)
         (JSON_parse : jsstring -> option value)
         (net : network) (src_param : option jsstring) (src : jsstring)
         (pre post : list jsstring) (url t : jsstring) (after : N)
         (r : response),
    normalize String_
      (VStr match src_param with Some s => s | None => [] end) = Normal src ->
    src <> [] ->
    buildCandidates src = pre ++ url :: post ->
    forallb (candidate_fails JSON_parse net) pre = true ->
    net (timed_request url 8000) = Responds after r ->
    (after < 8000)%N ->
    usable JSON_parse r t ->
    exists resp,
      GET String_ JSON_parse src_param net
      = (map (fun u => Fetched (timed_request u 8000)) (pre ++ [url]), Ret resp)
      /\ status resp = 200%N
      /\ prop (envelope resp) (lit "ok") = VBool true
      /\ prop (envelope resp) (lit "resolvedUrl") = VStr url
      /\ prop (envelope resp) (lit "contentType")
         = VStr (content_type_or_empty r)
      /\ prop (envelope resp) (lit "data") = route_data JSON_parse t.
Proof.
  intros String_ JSON_parse net src_param src pre post url t after r
    Hnorm Hsrc Hurls Hpre Hnet Hlt Huse.
  rewrite normalize_of_string in Hnorm. injection Hnorm as Hnorm.
  exists (success_envelope url (content_type_or_empty r) (route_data JSON_parse t)).
  apply is_empty_false in Hsrc.
  split; [|repeat split].
  rewrite GET_of_string. cbv zeta. rewrite Hnorm, Hsrc, Hurls. unfold bind.
  rewrite (try_candidates_first_success JSON_parse net pre post url t after r
             Hpre Hnet Hlt Huse).
  cbn [ret]. rewrite app_nil_r. reflexivity.
Qed.

Lemma route_first_success_wins_witness :
  let net : network :=
    fun rq =>
      if str_eqb (req_url rq) (lit "https://ipfs.io/ipfs/QmX")
      then Responds 7999 {| resp_ok := true;
                            resp_content_type := None;
                            resp_body := BodyText (lit "hello") |}
      else Responds 8000 {| resp_ok := true;
                            resp_content_type := None;
                            resp_body := BodyText (lit "late") |} in
  exists resp,
    GET String_conversion JSON_parse_sample (Some (lit "QmX")) net
    = (map (fun u => Fetched (timed_request u 8000))
         [lit "https://cloudflare-ipfs.com/ipfs/QmX";
          lit "https://ipfs.io/ipfs/QmX"], Ret resp)
    /\ status resp = 200%N
    /\ prop (envelope resp) (lit "ok") = VBool true
    /\ prop (envelope resp) (lit "resolvedUrl")
       = VStr (lit "https://ipfs.io/ipfs/QmX")
    /\ prop (envelope resp) (lit "contentType") = VStr []
    /\ prop (envelope resp) (lit "data") = VStr (lit "hello").
Proof.
  intros net.
  apply (route_first_success_wins String_conversion JSON_parse_sample net
           (Some (lit "QmX")) (lit "QmX")
           [lit "https://cloudflare-ipfs.com/ipfs/QmX"]
           [lit "https://nftstorage.link/ipfs/QmX";
            lit "https://dweb.link/ipfs/QmX";
            lit "https://gateway.pinata.cloud/ipfs/QmX";
            lit "https://QmX.ipfs.nftstorage.link";
            lit "https://QmX.ipfs.dweb.link"]
           (lit "https://ipfs.io/ipfs/QmX") (lit "hello") 7999
           {| resp_ok := true; resp_content_type := None;
              resp_body := BodyText (lit "hello") |}).
  - reflexivity.
  - discriminate.
  - reflexivity.
  - reflexivity.
  - reflexivity.
  - reflexivity.
  - split; [reflexivity|]. split; [reflexivity|]. intros H. discriminate H.
Defined.

(** X8. [GET] never throws.  What it returns has status 200 with
    [ok: true], or status 400 with [ok: false] when [src] is missing or
    normalizes to the empty string, or status 502 with [ok: false] when
    there were candidates to try: [ok] is true exactly for status 200. *)
Theorem route_answers_are_well_formed :
  forall (String_ : value -> completion jsstring)
         (JSON_parse : jsstring -> option value)
         (net : network) (src_param : option jsstring),
    let run := GET String_ JSON_parse src_param net in
    snd run <> Raise
    /\ exists src,
         normalize String_
           (VStr match src_param with Some s => s | None => [] end) = Normal src
         /\ (forall resp,
               snd run = Ret resp ->
               (status resp = 200%N
                /\ prop (envelope resp) (lit "ok") = VBool true
                /\ src <> [])
               \/ (status resp = 400%N
                   /\ prop (envelope resp) (lit "ok") = VBool false
                   /\ src = [])
               \/ (status resp = 502%N
                   /\ prop (envelope resp) (lit "ok") = VBool false
                   /\ src <> [])).
Proof.
  intros String_ JSON_parse net src_param run.
  set (src := normalize_string
                match src_param with Some s => s | None => [] end).
  assert (Hgoal : snd run <> Raise
            /\ (forall resp,
                  snd run = Ret resp ->
                  (status resp = 200%N
                   /\ prop (envelope resp) (lit "ok") = VBool true
                   /\ src <> [])
                  \/ (status resp = 400%N
                      /\ prop (envelope resp) (lit "ok") = VBool false
                      /\ src = [])
                  \/ (status resp = 502%N
                      /\ prop (envelope resp) (lit "ok") = VBool false
                      /\ src <> []))).
  2:{ destruct Hgoal as [Hnr Hall]. split; [exact Hnr|].
      exists src. split; [reflexivity | exact Hall]. }
  unfold run. rewrite GET_of_string. cbv zeta. fold src.
  destruct (is_empty src) eqn:Hsrc.
  - apply is_empty_true in Hsrc. split; [discriminate|].
    intros resp H. injection H as <-. right; left. repeat split. exact Hsrc.
  - apply is_empty_false in Hsrc. unfold bind.
    pose proof (try_candidates_never_raise JSON_parse net (buildCandidates src))
      as Hnr.
    destruct (try_candidates JSON_parse (buildCandidates src) net)
      as [clog [[r0|]| |]] eqn:E; cbn [snd ret] in *.
    + split; [discriminate|]. intros resp H. injection H as <-.
      destruct (try_candidates_returns JSON_parse net _ _ _ E)
        as [pre [url [post [after [r [_ [_ [_ [_ [_ [Hst [Hok _]]]]]]]]]]]].
      left. repeat split; assumption.
    + split; [discriminate|]. intros resp H. injection H as <-.
      right; right. repeat split. exact Hsrc.
    + contradiction.
    + split; discriminate.
Qed.

Lemma route_answers_are_well_formed_witness :
  let resp := all_failed (buildCandidates (lit "QmX")) in
  exists src,
    normalize String_conversion (VStr (lit "QmX")) = Normal src
    /\ ((status resp = 200%N /\ prop (envelope resp) (lit "ok") = VBool true
         /\ src <> [])
        \/ (status resp = 400%N /\ prop (envelope resp) (lit "ok") = VBool false
            /\ src = [])
        \/ (status resp = 502%N /\ prop (envelope resp) (lit "ok") = VBool false
            /\ src <> [])).
Proof.
  intros resp.
  destruct (proj2 (route_answers_are_well_formed String_conversion
                     JSON_parse_sample all_reject (Some (lit "QmX"))))
    as [src [Hsrc Hall]].
  exists src. split; [exact Hsrc|].
  apply Hall. reflexivity.
Defined.

(* ------------------------------------------------------------------ *)
(** * Further properties of the normalizer and the resolver *)
(* ------------------------------------------------------------------ *)

(** X9. A pointer that is an [ar://] link or an http(s) URL has exactly
    one candidate, for the route and for the page alike: the Arweave
    gateway URL of the transaction, or the URL itself with the white
    space around it removed.  No IPFS gateway is tried for it. *)
Theorem url_pointers_have_one_candidate :
  forall (String_ : value -> completion jsstring) (raw normalized : jsstring),
    let t := trim raw in
    normalize String_ (VStr raw) = Normal normalized ->
    t <> [] ->
    is_ar t = true \/ is_http t = true ->
    exists url,
      buildCandidates normalized = [url]
      /\ pageCandidates normalized = [url]
      /\ (is_ar t = true -> url = lit "https://arweave.net/" ++ skipn 5 t)
      /\ (is_ar t = false -> url = t).
Proof.
  intros String_ raw normalized t Hnorm Ht Hkind.
  assert (Hn : normalized = normalize_string raw).
  { rewrite normalize_of_string in Hnorm. injection Hnorm as <-. reflexivity. }
  clear Hnorm.
  unfold normalize_string in Hn. fold t in Hn.
  apply is_empty_false in Ht. rewrite Ht in Hn.
  destruct (is_ar t) eqn:Har.
  - subst normalized. eexists.
    unfold buildCandidates, pageCandidates.
    assert (Hh : is_http (lit "https://arweave.net/" ++ skipn 5 t) = true)
      by reflexivity.
    rewrite Hh. repeat split. intros H. discriminate H.
  - destruct Hkind as [H|Hh]; [discriminate H|].
    rewrite Hh in Hn. subst normalized. exists t.
    unfold buildCandidates, pageCandidates. rewrite Hh.
    repeat split. intros H. discriminate H.
Qed.

Lemma url_pointers_have_one_candidate_witness :
  exists url,
    buildCandidates (lit "https://arweave.net/tx1") = [url]
    /\ pageCandidates (lit "https://arweave.net/tx1") = [url]
    /\ (is_ar (trim (lit " ar://tx1 ")) = true ->
        url = lit "https://arweave.net/" ++ skipn 5 (trim (lit " ar://tx1 ")))
    /\ (is_ar (trim (lit " ar://tx1 ")) = false -> url = trim (lit " ar://tx1 ")).
Proof.
  apply (url_pointers_have_one_candidate String_conversion (lit " ar://tx1 ")
           (lit "https://arweave.net/tx1")).
  - reflexivity.
  - discriminate.
  - left. reflexivity.
Defined.






(* ------------------------------------------------------------------ *)
(** * Further properties of the pointer extraction and of its caller *)
(* ------------------------------------------------------------------ *)

Lemma trimStart_clean (s : jsstring) : starts_clean (trimStart s).
Proof.
  induction s as [|c r IH]; cbn [trimStart]; [exact I|].
  destruct (is_white_space c) eqn:E; [exact IH | exact E].
Qed.

Lemma trimStart_fix (s : jsstring) : starts_clean s -> trimStart s = s.
Proof.
  destruct s as [|c r]; [reflexivity|]. cbn. intros ->. reflexivity.
Qed.

Lemma trimStart_suffix (s : jsstring) : exists pre, s = pre ++ trimStart s.
Proof.
  induction s as [|c r [pre IH]]; [exists []; reflexivity|].
  cbn [trimStart]. destruct (is_white_space c).
  - exists (c :: pre). cbn [app]. rewrite <- IH. reflexivity.
  - exists []. reflexivity.
Qed.

Lemma trim_trim (s : jsstring) : trim (trim s) = trim s.
Proof.
  unfold trim, trimEnd.
  set (u := trimStart s).
  set (w := trimStart (rev u)).
  assert (Hu : starts_clean u) by apply trimStart_clean.
  assert (Hw : starts_clean w) by apply trimStart_clean.
  assert (Hrw : starts_clean (rev w)).
  { destruct (trimStart_suffix (rev u)) as [pre Hpre]. fold w in Hpre.
    apply (f_equal (@rev N)) in Hpre.
    rewrite rev_involutive, rev_app_distr in Hpre.
    destruct (rev w) as [|c x]; [exact I|].
    rewrite Hpre in Hu. exact Hu. }
  rewrite (trimStart_fix (rev w) Hrw), rev_involutive.
  rewrite (trimStart_fix w Hw). reflexivity.
Qed.

Lemma value_nested_ind (P : value -> Prop) :
  P VUndefined -> P VNull -> (forall b, P (VBool b)) -> (forall q, P (VNum q)) ->
  (forall s, P (VStr s)) ->
  (forall items, Forall P items -> P (VArr items)) ->
  (forall fields, Forall (fun kv => P (snd kv)) fields -> P (VObj fields)) ->
  forall v, P v.
Proof.
  intros Hu Hn Hb Hq Hs Ha Ho. fix IH 1.
  intros [| | b | q | s | items | fields];
    [exact Hu | exact Hn | apply Hb | apply Hq | apply Hs | |].
  - apply Ha. induction items as [|x r IHr]; constructor; [apply IH | exact IHr].
  - apply Ho. induction fields as [|[k x] r IHr]; constructor;
      [apply IH | exact IHr].
Qed.

Lemma extract_array_cons (x : value) (r : list value) :
  extractIpfsLink (VArr (x :: r))
  = if got_truthy (extractIpfsLink x) then extractIpfsLink x
    else extractIpfsLink (VArr r).
Proof. reflexivity. Qed.

Lemma extract_array_source (items : list value) (r : jsstring) :
  extractIpfsLink (VArr items) = Some r ->
  r <> [] /\ exists it, In it items /\ extractIpfsLink it = Some r.
Proof.
  induction items as [|x rest IH]; [discriminate|].
  rewrite extract_array_cons.
  destruct (got_truthy (extractIpfsLink x)) eqn:E.
  - intros H. rewrite H in E. split.
    + destruct r; [discriminate E | discriminate].
    + exists x. split; [left; reflexivity | exact H].
  - intros H. destruct (IH H) as [Hr [it [Hin Hit]]].
    split; [exact Hr|]. exists it. split; [right; exact Hin | exact Hit].
Qed.

Lemma key_loop_source (sub : jsstring -> option (option jsstring))
  (ks : list jsstring) (r : jsstring) :
  key_loop sub ks = Some r ->
  r <> [] /\ exists k, In k ks /\ sub k = Some (Some r).
Proof.
  intros H. split; [exact (key_loop_truthy _ _ _ H)|].
  induction ks as [|k rest IH]; [discriminate H|].
  cbn [key_loop] in H. destruct (sub k) as [g|] eqn:Hk.
  - destruct (got_truthy g) eqn:E.
    + exists k. split; [left; reflexivity|]. congruence.
    + destruct (IH H) as [k' [Hin Hk']].
      exists k'. split; [right; exact Hin | exact Hk'].
  - destruct (IH H) as [k' [Hin Hk']].
    exists k'. split; [right; exact Hin | exact Hk'].
Qed.

Lemma lookup_In (k : jsstring) (fields : list (jsstring * value)) (v : value) :
  lookup k fields = Some v -> exists k', In (k', v) fields.
Proof.
  induction fields as [|[k0 v0] rest IH]; [discriminate|].
  cbn [lookup]. destruct (str_eqb k0 k).
  - intros H. injection H as ->. exists k0. left. reflexivity.
  - intros H. destruct (IH H) as [k' Hin]. exists k'. right. exact Hin.
Qed.

(** X11. For an array, [extractIpfsLink] searches the items in order and
    returns the result of the first item that gives a non-empty pointer;
    when no item gives one, and for the empty array, it returns [null]. *)
Theorem extract_array_first_pointer_wins :
  forall items : list value,
    (forall pre it post,
        items = pre ++ it :: post ->
        Forall (fun x => got_truthy (extractIpfsLink x) = false) pre ->
        got_truthy (extractIpfsLink it) = true ->
        extractIpfsLink (VArr items) = extractIpfsLink it)
    /\ (Forall (fun x => got_truthy (extractIpfsLink x) = false) items ->
        extractIpfsLink (VArr items) = None).
Proof.
  intros items. split.
  - intros pre it post -> Hpre Hit. induction Hpre as [|x pre Hx _ IH].
    + cbn [app]. rewrite extract_array_cons, Hit. reflexivity.
    + cbn [app]. rewrite extract_array_cons, Hx. exact IH.
  - induction 1 as [|x rest Hx _ IH]; [reflexivity|].
    rewrite extract_array_cons, Hx. exact IH.
Qed.

Lemma extract_array_first_pointer_wins_witness :
  extractIpfsLink
    (VArr [VNull; VStr (lit "  "); VObj [(lit "uri", VStr (lit " ipfs://QmX "))];
           VStr (lit "QmY")])
  = extractIpfsLink (VObj [(lit "uri", VStr (lit " ipfs://QmX "))]).
Proof.
  apply (proj1 (extract_array_first_pointer_wins
                  [VNull; VStr (lit "  ");
                   VObj [(lit "uri", VStr (lit " ipfs://QmX "))];
                   VStr (lit "QmY")])
           [VNull; VStr (lit "  ")]
           (VObj [(lit "uri", VStr (lit " ipfs://QmX "))])
           [VStr (lit "QmY")]).
  - reflexivity.
  - repeat constructor.
  - reflexivity.
Defined.

(** X12. Whatever [extractIpfsLink] returns has no white space at its
    start or end.  It returns the empty string only for an input that
    is itself a string (a blank one); from an array or an object it
    returns [null] or a pointer that is not empty. *)
Theorem extract_result_is_trimmed :
  forall (v : value) (r : jsstring),
    extractIpfsLink v = Some r ->
    trim r = r
    /\ (r = [] -> exists s, v = VStr s /\ s <> [] /\ trim s = []).
Proof.
  intros v. induction v as [| | b | q | s | items IH | fields IH]
    using value_nested_ind; intros r H; try discriminate H.
  - cbn [extractIpfsLink] in H. destruct (is_empty s) eqn:Hs; [discriminate H|].
    injection H as <-. split; [apply trim_trim|].
    intros Hr. exists s. split; [reflexivity|].
    split; [apply is_empty_false; exact Hs | exact Hr].
  - destruct (extract_array_source items r H) as [Hr [it [Hin Hit]]].
    rewrite Forall_forall in IH.
    split; [exact (proj1 (IH it Hin r Hit)) | contradiction].
  - rewrite extractIpfsLink_object_is_key_search in H.
    destruct (key_loop_source _ _ _ H) as [Hr [k [_ Hk]]].
    unfold key_result in Hk.
    destruct (lookup k fields) as [x|] eqn:Hl; [|discriminate Hk].
    cbn [option_map] in Hk. injection Hk as Hx.
    destruct (lookup_In k fields x Hl) as [k' Hin].
    rewrite Forall_forall in IH.
    split; [exact (proj1 (IH (k', x) Hin r Hx)) | contradiction].
Qed.

Lemma extract_result_is_trimmed_witness :
  trim (lit "QmX") = lit "QmX"
  /\ (lit "QmX" = [] ->
      exists s, VArr [VObj [(lit "cid", VStr (lit " QmX "))]] = VStr s
                /\ s <> [] /\ trim s = []).
Proof.
  apply (extract_result_is_trimmed
           (VArr [VObj [(lit "cid", VStr (lit " QmX "))]]) (lit "QmX")).
  reflexivity.
Defined.

(** X13. The effect that loads the credential record computes the
    status first and chooses the pointer after it, in the same [try].
    When it calls [fetchIpfs], the argument is a string that is not
    empty and has no white space at its start or end, so that the call
    gets past the first guard of [fetchIpfs].  When the status
    computation returns, a string under [ipfs_link] that is not blank is
    the pointer that is resolved, whatever else the record holds.  A
    record that is missing gives no call.  The effect throws before the
    pointer is chosen, and makes no call, exactly when the status
    computation throws. *)
Theorem pointer_to_resolve_is_clean :
  forall (toString : value -> completion jsstring)
         (toUpperCase : jsstring -> jsstring) (res_data : value),
    let run := pointer_to_resolve toString toUpperCase res_data in
    (forall s, run = Normal (Some s) ->
               s <> [] /\ trim s = s /\ truthy (VStr s) = true)
    /\ (forall p st,
          credential_status toString toUpperCase res_data = Normal st ->
          prop (or_else res_data (VObj [])) (lit "ipfs_link") = VStr p ->
          trim p <> [] ->
          run = Normal (Some (trim p)))
    /\ (truthy res_data = false -> run = Normal None)
    /\ (run = Throw <->
        credential_status toString toUpperCase res_data = Throw)
    /\ (run = Throw <->
        (forall x, status_value res_data <> VStr x)
        /\ toString (status_value res_data) = Throw).
Proof.
  intros toString toUpperCase res_data run.
  assert (Hthrow : run = Throw <->
                   credential_status toString toUpperCase res_data = Throw).
  { unfold run, pointer_to_resolve.
    destruct (credential_status toString toUpperCase res_data);
      cbn [cbind]; split; intros H; try discriminate H; reflexivity. }
  pose proof (credential_status_throws toString toUpperCase res_data) as Hwhen.
  unfold run, pointer_to_resolve in *.
  set (data := or_else res_data (VObj [])) in *.
  repeat match goal with |- _ /\ _ => split end.
  - intros s H.
    destruct (credential_status toString toUpperCase res_data);
      cbn [cbind] in H; [|discriminate H].
    destruct (is_empty (ipfsStr data)) eqn:E; [discriminate H|].
    injection H as <-. apply is_empty_false in E.
    split; [exact E|]. split.
    + unfold ipfsStr. destruct (ipfsCandidate data); [apply trim_trim | reflexivity].
    + destruct (ipfsStr data); [contradiction | reflexivity].
  - intros p st Hst Hp Htrim. rewrite Hst. cbn [cbind]. f_equal.
    destruct (extract_string_nonblank p Htrim) as [Hex Hgot].
    assert (Hfield : ipfs_field data = VStr p).
    { unfold ipfs_field. rewrite Hp. unfold or_else at 1. cbn [truthy].
      destruct p; [exfalso; apply Htrim; reflexivity | reflexivity]. }
    assert (Hcand : ipfsCandidate data = Some (trim p)).
    { unfold ipfsCandidate, or_got. rewrite Hfield, Hex, Hgot. reflexivity. }
    unfold ipfsStr. rewrite Hcand, trim_trim.
    apply is_empty_false in Htrim. rewrite Htrim. reflexivity.
  - intros Hf.
    assert (Hd : data = VObj []) by (unfold data, or_else; rewrite Hf; reflexivity).
    assert (Hv : status_value res_data = VStr []).
    { unfold status_value. fold data. rewrite Hd. reflexivity. }
    unfold credential_status. rewrite rawStatus_reading, Hv, Hd. reflexivity.
  - exact Hthrow.
  - rewrite Hthrow. exact Hwhen.
Qed.

Lemma pointer_to_resolve_is_clean_witness :
  pointer_to_resolve String_conversion toUpperCase_ascii
    (VObj [(lit "tokenURI", VStr (lit "QmOther"));
           (lit "ipfs_link", VStr (lit " ipfs://QmX "))])
  = Normal (Some (trim (lit " ipfs://QmX ")))
  /\ pointer_to_resolve String_conversion toUpperCase_ascii
       (VObj [(lit "status", VObj [(lit "toString", VNum 1)]);
              (lit "ipfs_link", VStr (lit " ipfs://QmX "))])
     = Throw.
Proof.
  split.
  - apply (proj1 (proj2 (pointer_to_resolve_is_clean String_conversion
             toUpperCase_ascii
             (VObj [(lit "tokenURI", VStr (lit "QmOther"));
                    (lit "ipfs_link", VStr (lit " ipfs://QmX "))])))
             (lit " ipfs://QmX ") VERIFIED).
    + reflexivity.
    + reflexivity.
    + discriminate.
  - apply (proj1 (proj2 (proj2 (proj2 (pointer_to_resolve_is_clean
             String_conversion toUpperCase_ascii
             (VObj [(lit "status", VObj [(lit "toString", VNum 1)]);
                    (lit "ipfs_link", VStr (lit " ipfs://QmX "))])))))).
    reflexivity.
Defined.

(* ------------------------------------------------------------------ *)
(** * Properties of the certificate page *)
(* ------------------------------------------------------------------ *)

(** X14. The status mapping of the certificate page fails closed: the
    result is VERIFIED exactly when the upper-cased status of the
    backend is one of VERIFIED, VALID, AUTHENTIC and ORIGINAL; a status
    that mentions TAMPER or MISMATCH and is none of these four is
    TAMPERED; and a status that is recognised neither as verified nor
    as not found is TAMPERED.  No status is mapped exactly when the
    string conversion of the backend status throws. *)
Theorem document_verdict_fails_closed :
  forall (String_ : value -> completion jsstring)
         (toUpperCase : jsstring -> jsstring) (data : value),
    let verified :=
      [lit "VERIFIED"; lit "VALID"; lit "AUTHENTIC"; lit "ORIGINAL"] in
    (document_verdict String_ toUpperCase data = Normal DOC_VERIFIED <->
     exists raw,
       raw_document_status String_ toUpperCase data = Normal raw
       /\ In raw verified)
    /\ (forall raw,
          raw_document_status String_ toUpperCase data = Normal raw ->
          ~ In raw verified ->
          includes (lit "TAMPER") raw = true
          \/ includes (lit "MISMATCH") raw = true ->
          document_verdict String_ toUpperCase data = Normal DOC_TAMPERED)
    /\ (forall raw,
          raw_document_status String_ toUpperCase data = Normal raw ->
          ~ In raw verified ->
          includes (lit "NOT_FOUND") raw = false ->
          includes (lit "NO_MATCH") raw = false ->
          ~ In raw [lit "UNKNOWN"; lit "MISSING"; lit "NO_RECORD"] ->
          document_verdict String_ toUpperCase data = Normal DOC_TAMPERED)
    /\ (document_verdict String_ toUpperCase data = Throw <->
        raw_document_status String_ toUpperCase data = Throw).
Proof.
  intros String_ toUpperCase data verified.
  unfold document_verdict.
  repeat match goal with |- _ /\ _ => split end.
  - split.
    + intros H.
      destruct (raw_document_status String_ toUpperCase data) as [raw|];
        cbn [cbind] in H; [|discriminate H].
      exists raw. split; [reflexivity|].
      injection H as H. unfold map_document_status in H. fold verified in H.
      apply array_includes_In.
      destruct (Status.array_includes verified raw); [reflexivity|].
      destruct (_ || _ || _); [discriminate H|].
      destruct (_ || _ || _); discriminate H.
    + intros [raw [Hraw H]]. rewrite Hraw. cbn [cbind].
      unfold map_document_status. fold verified.
      apply array_includes_In in H. rewrite H. reflexivity.
  - intros raw Hraw Hv Ht. rewrite Hraw. cbn [cbind].
    unfold map_document_status. fold verified.
    rewrite (array_includes_not_In _ _ Hv).
    destruct Ht as [-> | ->]; [reflexivity|].
    rewrite orb_true_r. reflexivity.
  - intros raw Hraw Hv Hnf Hnm Hu. rewrite Hraw. cbn [cbind].
    unfold map_document_status. fold verified.
    rewrite (array_includes_not_In _ _ Hv).
    rewrite Hnf, Hnm, (array_includes_not_In _ _ Hu).
    destruct (_ || _ || _); reflexivity.
  - split.
    + destruct (raw_document_status String_ toUpperCase data); cbn [cbind];
        intros H; [discriminate H | reflexivity].
    + intros ->. reflexivity.
Qed.

Lemma document_verdict_fails_closed_witness :
  document_verdict String_conversion toUpperCase_ascii
    (VObj [(lit "status", VStr (lit "success"))]) = Normal DOC_TAMPERED.
Proof.
  apply (proj1 (proj2 (proj2 (document_verdict_fails_closed String_conversion
           toUpperCase_ascii (VObj [(lit "status", VStr (lit "success"))]))))
           (lit "SUCCESS")).
  - reflexivity.
  - vm_compute. intros H. repeat destruct H as [H|H]; try discriminate H; exact H.
  - reflexivity.
  - reflexivity.
  - vm_compute. intros H. repeat destruct H as [H|H]; try discriminate H; exact H.
Defined.

Lemma hex_of_each_byte :
  forallb
    (fun b =>
       match padStart2 (toString16 b) with
       | [hi; lo] =>
           is_hex_lower hi && is_hex_lower lo
           && N.eqb (unhex_digit hi * 16 + unhex_digit lo) b
       | _ => false
       end)
    (map N.of_nat (seq 0 256)) = true.
Proof. vm_compute. reflexivity. Qed.

Lemma hex_of_byte (b : N) :
  (b < 256)%N ->
  exists hi lo,
    padStart2 (toString16 b) = [hi; lo]
    /\ is_hex_lower hi = true /\ is_hex_lower lo = true
    /\ (unhex_digit hi * 16 + unhex_digit lo)%N = b.
Proof.
  intros Hb. pose proof hex_of_each_byte as H.
  rewrite forallb_forall in H. specialize (H b).
  assert (Hin : In b (map N.of_nat (seq 0 256))).
  { apply in_map_iff. exists (N.to_nat b). split; [apply N2Nat.id|].
    apply in_seq. lia. }
  specialize (H Hin).
  destruct (padStart2 (toString16 b)) as [|hi [|lo [|x r]]]; try discriminate H.
  apply andb_true_iff in H as [H Heq]. apply andb_true_iff in H as [Hhi Hlo].
  apply N.eqb_eq in Heq. exists hi, lo. repeat split; assumption.
Qed.

(** X15. The hexadecimal string that [sha256] makes of the bytes of a
    digest has two characters per byte, all of them digits or letters
    [a] to [f], and determines the bytes: reading the pairs back gives
    the bytes again. *)
Theorem hex_of_bytes_round_trip :
  forall bytes : list N,
    Forall (fun b => (b < 256)%N) bytes ->
    length (hex_of_bytes bytes) = (2 * length bytes)%nat
    /\ forallb is_hex_lower (hex_of_bytes bytes) = true
    /\ bytes_of_hex (hex_of_bytes bytes) = bytes.
Proof.
  unfold hex_of_bytes. induction 1 as [|b bytes Hb _ [IHl [IHh IHr]]].
  - repeat split.
  - destruct (hex_of_byte b Hb) as [hi [lo [Hpair [Hhi [Hlo Hval]]]]].
    cbn [map concat]. rewrite Hpair. cbn [app length forallb bytes_of_hex].
    rewrite IHl, Hhi, Hlo, IHh, IHr, Hval. repeat split. lia.
Qed.

Lemma hex_of_bytes_round_trip_witness :
  length (hex_of_bytes [0; 10; 255]%N) = (2 * 3)%nat
  /\ forallb is_hex_lower (hex_of_bytes [0; 10; 255]%N) = true
  /\ bytes_of_hex (hex_of_bytes [0; 10; 255]%N) = [0; 10; 255]%N.
Proof.
  apply (hex_of_bytes_round_trip [0; 10; 255]%N).
  repeat constructor.
Defined.

Lemma link_matches_app (pre s : jsstring) :
  link_matches s = true -> link_matches (pre ++ s) = true.
Proof.
  intros H. induction pre as [|c pre IH]; [exact H|].
  cbn [app link_matches]. rewrite IH. apply orb_true_r.
Qed.

Lemma link_matches_needs_segment (s : jsstring) :
  includes_i (lit "/verify/") s = false -> link_matches s = false.
Proof.
  induction s as [|c r IH]; [reflexivity|].
  cbn [includes_i link_matches]. intros H.
  apply orb_false_iff in H as [Hhere Hrest].
  rewrite Hhere, (IH Hrest). reflexivity.
Qed.

(** X16. In link mode [submit] follows the pasted text as it is whenever
    the text has [/verify/] followed by a word character somewhere in
    it: what stands before, scheme and host included, is not examined.
    A text without [/verify/] is refused with the message for an
    unrecognised link. *)
Theorem link_mode_follows_any_verify_link :
  (forall (pre post : jsstring) (c : N),
      word_i c = true ->
      submit_link (pre ++ lit "/verify/" ++ c :: post)
      = Navigate (pre ++ lit "/verify/" ++ c :: post))
  /\ (forall s : jsstring,
        includes_i (lit "/verify/") s = false ->
        submit_link s
        = Refuse (lit "Unrecognized link. Please paste a valid credential link.")).
Proof.
  split.
  - intros pre post c Hc. unfold submit_link.
    rewrite link_matches_app; [reflexivity|].
    cbn [lit app]. cbn [link_matches test_prefix_i skipn]. cbn.
    rewrite Hc. reflexivity.
  - intros s H. unfold submit_link.
    rewrite (link_matches_needs_segment s H). reflexivity.
Qed.

Lemma link_mode_follows_any_verify_link_witness :
  submit_link (lit "https://elsewhere.example/verify/x")
  = Navigate (lit "https://elsewhere.example/verify/x")
  /\ submit_link (lit "https://your-app.com/credential/42")
     = Refuse (lit "Unrecognized link. Please paste a valid credential link.").
Proof.
  split.
  - apply (proj1 link_mode_follows_any_verify_link
             (lit "https://elsewhere.example") [] 120%N).
    reflexivity.
  - apply (proj2 link_mode_follows_any_verify_link
             (lit "https://your-app.com/credential/42")).
    reflexivity.
Defined.
